(** * The v1-to-v2 platform migrator of flyctl, embedded in Rocq

    Source files covered:
    - [internal/command/migrate_to_v2/migrate_to_v2.go]: the migrator, its
      construction and validation, the step sequence of [Migrate], [rollback];
    - package [machine], [WaitForStartOrStop].

    Go methods on [*v2PlatformMigrator] mutate the receiver and talk to remote
    services.  Both are made explicit: a step is a function from a [state]
    (the call log so far and the migrator) to a result and a new state, and
    every answer of the outside world is read from a [World] record whose
    fields are functions of the call log so far.  A property proved for every
    [World] therefore holds for every behaviour of the remote services.

    Not modelled: the progress text of the text block ([tb.Detail]), the
    debug print of [createMachines], [terminal.Warnf] and the reports to the
    error tracker.  What is written to [ErrOut] on the failure paths is
    logged as an [ErrOut] event. *)

From stdpp Require Import base strings list gmap pretty.

(** ** Errors *)

(** Go [error] values.  [ErrWrap p e] is [fmt.Errorf(p + "%w", e)]: [p] is the
    formatted text that precedes the wrapped error. *)
Inductive error : Type :=
| ErrNew (msg : string)
| ErrFlaps (status : nat) (msg : string)
| ErrWrap (prefix : string) (inner : error).

Fixpoint errorString (e : error) : string :=
  match e with
  | ErrNew msg => msg
  | ErrFlaps _ msg => msg
  | ErrWrap p inner => p +:+ errorString inner
  end.

(** [errors.As(err, &flapsErr)]: the first flaps error of the wrap chain. *)
Fixpoint asFlapsError (e : error) : option nat :=
  match e with
  | ErrNew _ => None
  | ErrFlaps status _ => Some status
  | ErrWrap _ inner => asFlapsError inner
  end.

(** [strings.Contains]. *)
Fixpoint contains (sub s : string) : bool :=
  if String.prefix sub s then true
  else match s with
       | EmptyString => false
       | String _ s' => contains sub s'
       end.

(** [strings.Replace(s, old, new, 1)] for a non-empty [old]. *)
Fixpoint replaceFirst (old new s : string) : string :=
  if String.prefix old s
  then new +:+ String.substring (String.length old) (String.length s - String.length old) s
  else match s with
       | EmptyString => EmptyString
       | String c s' => String c (replaceFirst old new s')
       end.

(** ** Data model *)

Record AppCompact := { ac_Name : string; ac_IsPostgresApp : bool }.

Record App := {
  app_Name : string;
  app_PlatformVersion : string;
  app_OrganizationID : string;
  app_PaidPlan : bool
}.

Record Static := { GuestPath : string; UrlPrefix : string }.

(** [appconfig.Config], the fields the migrator reads.  [Mounts] is a pointer
    field: [None] is [nil], [Some d] a volume mounted at destination [d]. *)
Record Config := {
  AppName : string;
  Env : gmap string string;
  PrimaryRegion : string;
  Mounts : option string;
  Metrics : option string;
  Statics : list Static
}.

Record ProcessConfig := {
  Cmd : list string;
  Services : list string;
  Checks : gmap string string
}.

Record AutoscalingConfig := { Enabled : bool }.

Record ImageDetails := { Registry : string; Repository : string; Tag : string }.

Record VMSize := { vm_Name : string; vm_MemoryMB : nat }.

Record MachineGuest := { CPUKind : string; CPUs : nat; MemoryMB : nat }.

(** [api.AllocationStatus]; [AttachedVolumes] holds the volume ids of
    [AttachedVolumes.Nodes]. *)
Record AllocationStatus := {
  IDShort : string;
  TaskName : string;
  Region : string;
  AttachedVolumes : list string
}.

Record MachineMount := { mount_Path : string; mount_Volume : string }.

Record MachineConfig := {
  mc_Guest : MachineGuest;
  mc_Metadata : gmap string string;
  mc_Image : string;
  mc_Env : gmap string string;
  mc_Metrics : option string;
  mc_Statics : list Static;
  mc_Mounts : list MachineMount;
  mc_Services : list string;
  mc_Checks : gmap string string;
  mc_InitCmd : list string
}.

Record LaunchMachineInput := {
  li_AppID : string;
  li_OrgSlug : string;
  li_Region : string;
  li_Config : MachineConfig
}.

Record Machine := { ID : string; machine_Region : string }.

Record recoveryState := {
  machinesCreated : list Machine;
  appLocked : bool;
  scaledToZero : bool;
  platformVersion : string;
  onlyPromptToConfigSave : bool
}.

(** The migrator.  The clients and the io streams are the [World]; durations
    are in seconds.  [newMachines] is the list wrapped by the
    [machine.MachineSet]. *)
Record v2PlatformMigrator := {
  leaseTimeout : nat;
  leaseDelayBetween : nat;
  appCompact : AppCompact;
  appFull : App;
  appConfig : Config;
  configPath : string;
  autoscaleConfig : AutoscalingConfig;
  volumeDestination : string;
  processConfigs : gmap string ProcessConfig;
  img : string;
  appLock : string;
  releaseId : string;
  releaseVersion : Z;
  oldAllocs : list AllocationStatus;
  machineGuest : MachineGuest;
  oldVmCounts : gmap string nat;
  newMachinesInput : list LaunchMachineInput;
  newMachines : list Machine;
  canAvoidDowntime : bool;
  recovery : recoveryState
}.

(** Field updates, one per assignment form of the source. *)
Definition set_recovery (f : recoveryState → recoveryState) (m : v2PlatformMigrator)
  : v2PlatformMigrator :=
  {| leaseTimeout := leaseTimeout m; leaseDelayBetween := leaseDelayBetween m;
     appCompact := appCompact m; appFull := appFull m; appConfig := appConfig m;
     configPath := configPath m; autoscaleConfig := autoscaleConfig m;
     volumeDestination := volumeDestination m; processConfigs := processConfigs m;
     img := img m; appLock := appLock m; releaseId := releaseId m;
     releaseVersion := releaseVersion m; oldAllocs := oldAllocs m;
     machineGuest := machineGuest m; oldVmCounts := oldVmCounts m;
     newMachinesInput := newMachinesInput m; newMachines := newMachines m;
     canAvoidDowntime := canAvoidDowntime m; recovery := f (recovery m) |}.

Definition set_appLock (l : string) (m : v2PlatformMigrator) : v2PlatformMigrator :=
  {| leaseTimeout := leaseTimeout m; leaseDelayBetween := leaseDelayBetween m;
     appCompact := appCompact m; appFull := appFull m; appConfig := appConfig m;
     configPath := configPath m; autoscaleConfig := autoscaleConfig m;
     volumeDestination := volumeDestination m; processConfigs := processConfigs m;
     img := img m; appLock := l; releaseId := releaseId m;
     releaseVersion := releaseVersion m; oldAllocs := oldAllocs m;
     machineGuest := machineGuest m; oldVmCounts := oldVmCounts m;
     newMachinesInput := newMachinesInput m; newMachines := newMachines m;
     canAvoidDowntime := canAvoidDowntime m; recovery := recovery m |}.

Definition set_release (id : string) (v : Z) (m : v2PlatformMigrator) : v2PlatformMigrator :=
  {| leaseTimeout := leaseTimeout m; leaseDelayBetween := leaseDelayBetween m;
     appCompact := appCompact m; appFull := appFull m; appConfig := appConfig m;
     configPath := configPath m; autoscaleConfig := autoscaleConfig m;
     volumeDestination := volumeDestination m; processConfigs := processConfigs m;
     img := img m; appLock := appLock m; releaseId := id;
     releaseVersion := v; oldAllocs := oldAllocs m;
     machineGuest := machineGuest m; oldVmCounts := oldVmCounts m;
     newMachinesInput := newMachinesInput m; newMachines := newMachines m;
     canAvoidDowntime := canAvoidDowntime m; recovery := recovery m |}.

Definition set_newMachines (l : list Machine) (m : v2PlatformMigrator) : v2PlatformMigrator :=
  {| leaseTimeout := leaseTimeout m; leaseDelayBetween := leaseDelayBetween m;
     appCompact := appCompact m; appFull := appFull m; appConfig := appConfig m;
     configPath := configPath m; autoscaleConfig := autoscaleConfig m;
     volumeDestination := volumeDestination m; processConfigs := processConfigs m;
     img := img m; appLock := appLock m; releaseId := releaseId m;
     releaseVersion := releaseVersion m; oldAllocs := oldAllocs m;
     machineGuest := machineGuest m; oldVmCounts := oldVmCounts m;
     newMachinesInput := newMachinesInput m; newMachines := l;
     canAvoidDowntime := canAvoidDowntime m; recovery := recovery m |}.

Definition set_appConfig (c : Config) (m : v2PlatformMigrator)
  : v2PlatformMigrator :=
  {| leaseTimeout := leaseTimeout m; leaseDelayBetween := leaseDelayBetween m;
     appCompact := appCompact m; appFull := appFull m; appConfig := c;
     configPath := configPath m; autoscaleConfig := autoscaleConfig m;
     volumeDestination := volumeDestination m; processConfigs := processConfigs m;
     img := img m; appLock := appLock m; releaseId := releaseId m;
     releaseVersion := releaseVersion m; oldAllocs := oldAllocs m;
     machineGuest := machineGuest m; oldVmCounts := oldVmCounts m;
     newMachinesInput := newMachinesInput m; newMachines := newMachines m;
     canAvoidDowntime := canAvoidDowntime m; recovery := recovery m |}.

Definition set_configPath (path : string) (m : v2PlatformMigrator)
  : v2PlatformMigrator :=
  {| leaseTimeout := leaseTimeout m; leaseDelayBetween := leaseDelayBetween m;
     appCompact := appCompact m; appFull := appFull m; appConfig := appConfig m;
     configPath := path; autoscaleConfig := autoscaleConfig m;
     volumeDestination := volumeDestination m; processConfigs := processConfigs m;
     img := img m; appLock := appLock m; releaseId := releaseId m;
     releaseVersion := releaseVersion m; oldAllocs := oldAllocs m;
     machineGuest := machineGuest m; oldVmCounts := oldVmCounts m;
     newMachinesInput := newMachinesInput m; newMachines := newMachines m;
     canAvoidDowntime := canAvoidDowntime m; recovery := recovery m |}.

Definition set_oldVmCounts (counts : gmap string nat) (m : v2PlatformMigrator)
  : v2PlatformMigrator :=
  {| leaseTimeout := leaseTimeout m; leaseDelayBetween := leaseDelayBetween m;
     appCompact := appCompact m; appFull := appFull m; appConfig := appConfig m;
     configPath := configPath m; autoscaleConfig := autoscaleConfig m;
     volumeDestination := volumeDestination m; processConfigs := processConfigs m;
     img := img m; appLock := appLock m; releaseId := releaseId m;
     releaseVersion := releaseVersion m; oldAllocs := oldAllocs m;
     machineGuest := machineGuest m; oldVmCounts := counts;
     newMachinesInput := newMachinesInput m; newMachines := newMachines m;
     canAvoidDowntime := canAvoidDowntime m; recovery := recovery m |}.

Definition set_newMachinesInput (inputs : list LaunchMachineInput) (m : v2PlatformMigrator)
  : v2PlatformMigrator :=
  {| leaseTimeout := leaseTimeout m; leaseDelayBetween := leaseDelayBetween m;
     appCompact := appCompact m; appFull := appFull m; appConfig := appConfig m;
     configPath := configPath m; autoscaleConfig := autoscaleConfig m;
     volumeDestination := volumeDestination m; processConfigs := processConfigs m;
     img := img m; appLock := appLock m; releaseId := releaseId m;
     releaseVersion := releaseVersion m; oldAllocs := oldAllocs m;
     machineGuest := machineGuest m; oldVmCounts := oldVmCounts m;
     newMachinesInput := inputs; newMachines := newMachines m;
     canAvoidDowntime := canAvoidDowntime m; recovery := recovery m |}.

Definition set_PrimaryRegion (r : string) (c : Config) : Config :=
  {| AppName := AppName c; Env := Env c; PrimaryRegion := r; Mounts := Mounts c;
     Metrics := Metrics c; Statics := Statics c |}.

Definition set_AppName (n : string) (c : Config) : Config :=
  {| AppName := n; Env := Env c; PrimaryRegion := PrimaryRegion c; Mounts := Mounts c;
     Metrics := Metrics c; Statics := Statics c |}.

Definition set_machinesCreated (l : list Machine) (r : recoveryState) : recoveryState :=
  {| machinesCreated := l; appLocked := appLocked r; scaledToZero := scaledToZero r;
     platformVersion := platformVersion r;
     onlyPromptToConfigSave := onlyPromptToConfigSave r |}.

Definition set_appLocked (b : bool) (r : recoveryState) : recoveryState :=
  {| machinesCreated := machinesCreated r; appLocked := b; scaledToZero := scaledToZero r;
     platformVersion := platformVersion r;
     onlyPromptToConfigSave := onlyPromptToConfigSave r |}.

Definition set_scaledToZero (b : bool) (r : recoveryState) : recoveryState :=
  {| machinesCreated := machinesCreated r; appLocked := appLocked r; scaledToZero := b;
     platformVersion := platformVersion r;
     onlyPromptToConfigSave := onlyPromptToConfigSave r |}.

Definition set_platformVersion (p : string) (r : recoveryState) : recoveryState :=
  {| machinesCreated := machinesCreated r; appLocked := appLocked r;
     scaledToZero := scaledToZero r; platformVersion := p;
     onlyPromptToConfigSave := onlyPromptToConfigSave r |}.

Definition set_onlyPromptToConfigSave (b : bool) (r : recoveryState) : recoveryState :=
  {| machinesCreated := machinesCreated r; appLocked := appLocked r;
     scaledToZero := scaledToZero r; platformVersion := platformVersion r;
     onlyPromptToConfigSave := b |}.

(** ** The outside world *)

(** One constructor per call that leaves the process (or reads the abort
    flag, or writes to the error stream), with the arguments the source
    passes. *)
Inductive event : Type :=
| LockApp (appId : string)
| UnlockApp (appId lockId : string)
| SetPlatformVersion (appId platform lockId : string)
| MigrateMachinesCreateRelease (appId image : string)
| SetNomadVMCount (appId : string) (groupCounts : list (string * nat)) (lockId : string)
| GetAllocations (appName : string)
| ResumeApp (appName : string)
| Launch (input : LaunchMachineInput)
| ListActive
| Destroy (appId id : string) (kill : bool)
| AcquireLeases (machines : list Machine) (timeout : nat)
| ReleaseLeases (machines : list Machine)
| StartBackgroundLeaseRefresh (machines : list Machine) (timeout delay : nat)
| NewMachineDeployment (appName : string)
| DeployMachinesApp (appName : string)
| WriteToDisk (path : string)
| AbortLoad
| ErrOut (text : string)
| Wait (machineId state : string)
| Sleep
| GetAppCompact (appName : string)
| FlapsNew (appName : string)
| GetApp (appName : string)
| FromRemoteApp (appName : string)
| AppAutoscalingConfig (appName : string)
| GetImageInfo (appName : string)
| AppVMResources (appName : string)
| PromptRegion.


Definition trace := list event.

Inductive ctxErr := CtxLive | CtxCanceled | CtxDeadlineExceeded.

(** The answers of the outside world.  Every field takes the call log at the
    moment of the call, so an answer may depend on everything that happened
    before.  [status] answers the calls whose only result is an [error];
    [None] is Go's [nil]. *)
Record World := {
  status : trace → event → option error;
  gqlLockApp : trace → error + string;
  gqlCreateRelease : trace → error + (string * Z);
  flapsLaunch : trace → LaunchMachineInput → error + Machine;
  apiGetAllocations : trace → error + list AllocationStatus;
  abortedLoad : trace → bool;
  deadlineFirst : trace → bool;
  waitCtxErr : trace → ctxErr
}.

Record state := { log : trace; mig : v2PlatformMigrator }.

Definition M (A : Type) : Type := state → A * state.

Definition ret {A} (a : A) : M A := λ st, (a, st).

Definition bind {A B} (c : M A) (k : A → M B) : M B :=
  λ st, let '(a, st') := c st in k a st'.

Notation "'let*' x ':=' c 'in' k" := (bind c (λ x, k))
  (at level 10, x pattern, c at level 100, k at level 200, only parsing).

(** [err = step(); if err != nil { return err }; rest]. *)
Definition andThen (c k : M (option error)) : M (option error) :=
  λ st, match c st with
        | (Some e, st') => (Some e, st')
        | (None, st') => k st'
        end.

Notation "c ;;; k" := (andThen c k) (at level 100, right associativity).

Definition emit (e : event) : M unit :=
  λ st, (tt, {| log := log st ++ [e]; mig := mig st |}).

Definition update (f : v2PlatformMigrator → v2PlatformMigrator) : M unit :=
  λ st, (tt, {| log := log st; mig := f (mig st) |}).

Definition updateOk (f : v2PlatformMigrator → v2PlatformMigrator) : M (option error) :=
  λ st, (None, {| log := log st; mig := f (mig st) |}).

Definition newline : string := String (Ascii.ascii_of_nat 10) EmptyString.

Definition abortedErr : error := ErrNew "migration aborted by user".

Definition allocsTimeoutErr : error :=
  ErrNew "nomad allocs never reached zero, timed out".

(** [fmt.Errorf("failed creating a machine in region %s: %w", region, err)]. *)
Definition launchErr (input : LaunchMachineInput) (err : error) : error :=
  ErrWrap ("failed creating a machine in region " +:+ li_Region input +:+ ": ") err.

(** [waitForAllocsZero] sleeps at least [Min] = 2 seconds before each poll and
    gives up after one hour, so at most 1800 polls fit before the deadline
    channel is ready; the world may let the deadline win earlier. *)
Definition maxPolls : nat := 1800.

Section Migrator.

Variable W : World.

(** A call whose only result is an [error]. *)
Definition call (e : event) : M (option error) :=
  λ st, (status W (log st) e, {| log := log st ++ [e]; mig := mig st |}).

(** [if aborted.Load() { return abortedErr }]. *)
Definition checkAbort : M (option error) :=
  λ st, (if abortedLoad W (log st) then Some abortedErr else None,
         {| log := log st ++ [AbortLoad]; mig := mig st |}).

Definition lockAppForMigration : M (option error) :=
  λ st,
    let m := mig st in
    let log' := log st ++ [LockApp (AppName (appConfig m))] in
    match gqlLockApp W (log st) with
    | inl err => (Some err, {| log := log'; mig := m |})
    | inr lockId =>
        (None, {| log := log';
                  mig := set_recovery (set_appLocked true) (set_appLock lockId m) |})
    end.

Definition createRelease : M (option error) :=
  λ st,
    let m := mig st in
    let log' := log st ++ [MigrateMachinesCreateRelease (AppName (appConfig m)) (img m)] in
    match gqlCreateRelease W (log st) with
    | inl err => (Some err, {| log := log'; mig := m |})
    | inr (id, version) => (None, {| log := log'; mig := set_release id version m |})
    end.

Fixpoint waitForAllocsZero_loop (polls : nat) : M (option error) :=
  λ st,
    match polls with
    | 0 => (Some allocsTimeoutErr, st)
    | S polls' =>
        if deadlineFirst W (log st) then (Some allocsTimeoutErr, st)
        else
          let log1 := log st ++ [Sleep] in
          let st' := {| log := log1 ++ [GetAllocations (ac_Name (appCompact (mig st)))];
                        mig := mig st |} in
          match apiGetAllocations W log1 with
          | inl err => (Some err, st')
          | inr [] => (None, st')
          | inr (_ :: _) => waitForAllocsZero_loop polls' st'
          end
    end.

Definition waitForAllocsZero : M (option error) := waitForAllocsZero_loop maxPolls.

Definition zeroGroupCounts (m : v2PlatformMigrator) : list (string * nat) :=
  (λ nc : string * nat, (nc.1, 0)) <$> map_to_list (oldVmCounts m).

Definition scaleNomadToZero : M (option error) :=
  (λ st,
     let m := mig st in
     let groupCounts := zeroGroupCounts m in
     if 0 <? length groupCounts
     then call (SetNomadVMCount (AppName (appConfig m)) groupCounts (appLock m)) st
     else (None, st)) ;;;
  waitForAllocsZero ;;;
  updateOk (set_recovery (set_scaledToZero true)).

Definition updateAppPlatformVersion (platform : string) : M (option error) :=
  (λ st,
     let m := mig st in
     call (SetPlatformVersion (AppName (appConfig m)) platform (appLock m)) st) ;;;
  updateOk (set_recovery (set_platformVersion platform)).

(** The loop of [createMachines]; [created] is [newlyCreatedMachines].  The
    debug block lists the active machines after every launch and only prints
    the answer. *)
Fixpoint launchAll (inputs : list LaunchMachineInput) (created : list Machine)
  : M (option error * list Machine) :=
  λ st,
    match inputs with
    | [] => ((None, created), st)
    | machineInput :: rest =>
        let st' := {| log := log st ++ [Launch machineInput; ListActive]; mig := mig st |} in
        match flapsLaunch W (log st) machineInput with
        | inl err => ((Some (launchErr machineInput err), created), st')
        | inr newMachine => launchAll rest (created ++ [newMachine]) st'
        end
    end.

(** The deferred assignment to [m.recovery.machinesCreated] runs on both
    returns; [m.newMachines] is only set on the successful one. *)
Definition createMachines : M (option error) :=
  λ st,
    let '((err, newlyCreatedMachines), st') := launchAll (newMachinesInput (mig st)) [] st in
    let m' := match err with
              | Some _ => mig st'
              | None => set_newMachines newlyCreatedMachines (mig st')
              end in
    (err, {| log := log st';
             mig := set_recovery (set_machinesCreated newlyCreatedMachines) m' |}).

Definition unlockApp : M (option error) :=
  (λ st,
     let m := mig st in
     call (UnlockApp (AppName (appConfig m)) (appLock m)) st) ;;;
  updateOk (set_recovery (set_appLocked false)).

(** An error of [DeployMachinesApp] is sent to the error tracker and
    dropped: the last statement is [return nil]. *)
Definition deployApp : M (option error) :=
  (λ st, call (NewMachineDeployment (ac_Name (appCompact (mig st)))) st) ;;;
  (let* _ := (λ st, call (DeployMachinesApp (ac_Name (appCompact (mig st)))) st) in
   ret None).

Definition acquireLeases : M (option error) :=
  λ st, call (AcquireLeases (newMachines (mig st)) (leaseTimeout (mig st))) st.

Definition releaseLeases : M (option error) :=
  λ st, call (ReleaseLeases (newMachines (mig st))) st.

Definition startBackgroundLeaseRefresh : M (option error) :=
  λ st,
    let m := mig st in
    (None, {| log := log st ++ [StartBackgroundLeaseRefresh (newMachines m)
                                  (leaseTimeout m) (leaseDelayBetween m)];
              mig := m |}).

(** *** Rollback *)

(** The loop over [m.recovery.machinesCreated]: [return err] on the first
    destroy that fails. *)
Fixpoint destroyAll (machines : list Machine) : M (option error) :=
  match machines with
  | [] => ret None
  | mach :: rest =>
      (λ st, call (Destroy (app_Name (appFull (mig st))) (ID mach) true) st) ;;;
      destroyAll rest
  end.

Definition rollback_body : M (option error) :=
  (λ st, destroyAll (machinesCreated (recovery (mig st))) st) ;;;
  (λ st,
     if bool_decide (platformVersion (recovery (mig st)) ≠ "nomad")
     then updateAppPlatformVersion "nomad" st
     else (None, st)) ;;;
  (λ st,
     let m := mig st in
     if scaledToZero (recovery m) && (0 <? length (oldAllocs m))
     then call (SetNomadVMCount (AppName (appConfig m)) (map_to_list (oldVmCounts m))
                  (if appLocked (recovery m) then appLock m else "")) st
     else (None, st)).

(** The deferred function of [rollback]: unlock if locked, then resume. *)
Definition rollback_deferred : M unit :=
  let* _ :=
    (λ st,
       if appLocked (recovery (mig st))
       then (let* err := unlockApp in
             match err with
             | Some e => emit (ErrOut ("failed to unlock app: " +:+ errorString e +:+ newline))
             | None => ret tt
             end) st
       else (tt, st)) in
  let* err := (λ st, call (ResumeApp (ac_Name (appCompact (mig st)))) st) in
  match err with
  | Some e =>
      if contains "not suspended" (errorString e) then ret tt
      else emit (ErrOut ("failed to unsuspend app: " +:+ errorString e +:+ newline))
  | None => ret tt
  end.

Definition rollback : M (option error) :=
  let* err := rollback_body in
  let* _ := rollback_deferred in
  ret err.

(** *** Migrate *)

(** After the lock and its checkpoint, up to the return of
    [createMachines]. *)
Definition Migrate_afterLock : M (option error) :=
  (λ st, if canAvoidDowntime (mig st) then (None, st) else scaleNomadToZero st) ;;;
  checkAbort ;;;
  updateAppPlatformVersion "detached" ;;; checkAbort ;;;
  createRelease ;;; checkAbort ;;;
  createMachines.

(** From the lock to the return of [createMachines]. *)
Definition Migrate_untilCreated : M (option error) :=
  lockAppForMigration ;;; checkAbort ;;; Migrate_afterLock.

(** ... and the checkpoint between creation and lease acquisition. *)
Definition Migrate_beforeLeases : M (option error) :=
  Migrate_untilCreated ;;; checkAbort.

(** What follows the call of [deployApp], up to the switch of the platform
    version. *)
Definition Migrate_afterDeploy : M (option error) :=
  checkAbort ;;;
  (λ st, if canAvoidDowntime (mig st)
         then (scaleNomadToZero ;;; checkAbort) st
         else (None, st)) ;;;
  updateAppPlatformVersion "machines".

(** From [AcquireLeases] to the switch of the platform version. *)
Definition Migrate_cutover : M (option error) :=
  acquireLeases ;;; checkAbort ;;;
  startBackgroundLeaseRefresh ;;;
  unlockApp ;;; checkAbort ;;;
  (let* _ := releaseLeases in ret None) ;;;
  deployApp ;;;
  Migrate_afterDeploy.

(** The point of no return: the flag is set, then the configuration is
    written. *)
Definition Migrate_saveConfig : M (option error) :=
  updateOk (set_recovery (set_onlyPromptToConfigSave true)) ;;;
  (λ st, call (WriteToDisk (configPath (mig st))) st).

(** From [AcquireLeases] to the end of the function body. *)
Definition Migrate_withLeases : M (option error) :=
  Migrate_cutover ;;; Migrate_saveConfig.

(** The body with the second deferred function, which is registered once
    [AcquireLeases] has been called and releases the leases on return. *)
Definition Migrate_steps : M (option error) :=
  Migrate_beforeLeases ;;;
  (let* err := Migrate_withLeases in
   let* _ := releaseLeases in
   ret err).

(** [m.recovery.platformVersion = m.appFull.PlatformVersion], the first
    assignment of [Migrate]. *)
Definition entry (m : v2PlatformMigrator) : v2PlatformMigrator :=
  set_recovery (set_platformVersion (app_PlatformVersion (appFull m))) m.

Definition configSaveHint : list event :=
  [ErrOut ("Failed to save application config to disk, but migration was successful."
             +:+ newline);
   ErrOut ("Please run `fly config save` before further interacting with your app via flyctl."
             +:+ newline)].

Definition rollbackFailedHint (recoveryErr : error) : event :=
  ErrOut ("failed while rolling back application: " +:+ errorString recoveryErr +:+ newline).

(** The first deferred function, which runs last. *)
Definition Migrate_deferred (err : option error) : M (option error) :=
  match err with
  | None => ret None
  | Some e =>
      λ st,
        if onlyPromptToConfigSave (recovery (mig st))
        then (Some e, {| log := log st ++ configSaveHint; mig := mig st |})
        else
          (let* recoveryErr := rollback in
           let* _ := match recoveryErr with
                     | Some re => emit (rollbackFailedHint re)
                     | None => ret tt
                     end in
           ret (Some e)) st
  end.

Definition Migrate : M (option error) :=
  let* _ := update entry in
  let* err := Migrate_steps in
  Migrate_deferred err.

End Migrator.

(** ** Construction and validation *)

(** What the constructor reads before it validates: the answers of the API
    client, of package [appconfig] and of the prompt, none of which is among
    the sources.  Each is asked once, so the answers do not depend on the
    call log. *)
Record Platform := {
  getAppCompact : string → error + AppCompact;
  flapsNew : AppCompact → option error;
  getApp : string → error + App;
  configFromContext : option Config;
  fromRemoteApp : string → error + Config;
  getProcessConfigs : Config → error + gmap string ProcessConfig;
  appAutoscalingConfig : string → error + AutoscalingConfig;
  getImageInfo : string → error + ImageDetails;
  appVMResources : string → error + VMSize;
  setSize : string → error + MachineGuest;
  validateForMachinesPlatform : Config → option error;
  promptRegion : bool → error + option string;
  workingDirectory : string;
  flagConfig : option string;
  resolveConfigFileFromPath : string → error + string
}.

(** A Go call ends with a value, with an [error], or in a run-time panic. *)
Inductive outcome (A : Type) : Type :=
| Built (a : A)
| Failed (err : error)
| Panicked (what : string).
Arguments Built {A} a.
Arguments Failed {A} err.
Arguments Panicked {A} what.

Definition nilDereference : string :=
  "invalid memory address or nil pointer dereference".

(** Modelled from the spec: the metadata keys and values of package [api]
    (platform-version marker, release id and version, process group), whose
    declarations are not among the sources. *)
Definition MachineConfigMetadataKeyFlyPlatformVersion : string := "fly_platform_version".
Definition MachineFlyPlatformVersion2 : string := "v2".
Definition MachineConfigMetadataKeyFlyReleaseId : string := "fly_release_id".
Definition MachineConfigMetadataKeyFlyReleaseVersion : string := "fly_release_version".
Definition MachineConfigMetadataKeyFlyProcessGroup : string := "fly_process_group".
Definition MachineProcessGroupApp : string := "app".
Definition MachineConfigMetadataKeyFlyManagedPostgres : string := "fly-managed-postgres".

Section Construction.

Variable P : Platform.

Definition validateScaling (m : v2PlatformMigrator) : option error :=
  if Enabled (autoscaleConfig m)
  then Some (ErrNew ("cannot migrate app " +:+ ac_Name (appCompact m)
               +:+ " with autoscaling config, yet; watch https://community.fly.io for announcements about autoscale support with migrations"))
  else None.

Definition validateVolumes (m : v2PlatformMigrator) : option error :=
  match Mounts (appConfig m) with
  | Some _ =>
      Some (ErrNew ("cannot migrate app " +:+ ac_Name (appCompact m)
              +:+ " with [mounts] configuration, yet; watch https://community.fly.io for announcements about volume support with migrations"))
  | None =>
      match List.find (λ a, 0 <? length (AttachedVolumes a)) (oldAllocs m) with
      | Some a =>
          Some (ErrNew ("cannot migrate app " +:+ ac_Name (appCompact m)
                  +:+ " because alloc " +:+ IDShort a
                  +:+ " has a volume attached; watch https://community.fly.io for announcements about volume support with migrations"))
      | None => None
      end
  end.

(** [strings.Join(lo.Keys(m.processConfigs), ", ")]. *)
Definition knownProcGroupsStr (m : v2PlatformMigrator) : string :=
  String.concat ", " ((map_to_list (processConfigs m)).*1).

Definition validateProcessGroupsOnAllocs (m : v2PlatformMigrator) : option error :=
  match List.find (λ a, bool_decide (processConfigs m !! TaskName a = None)) (oldAllocs m) with
  | Some a =>
      Some (ErrNew ("alloc " +:+ IDShort a +:+ " has process group '" +:+ TaskName a
              +:+ "' that is not present in app configuration fly.toml; known process groups are: "
              +:+ knownProcGroupsStr m))
  | None => None
  end.

(** [validate].  After [validateScaling] the source has
    [if err != nil { return nil }]. *)
Definition validate (m : v2PlatformMigrator) : option error :=
  match validateForMachinesPlatform P (appConfig m) with
  | Some err => Some (ErrWrap "failed to validate config for Apps V2 platform: " err)
  | None =>
      match validateScaling m with
      | Some _ => None
      | None =>
          match validateVolumes m with
          | Some err => Some err
          | None =>
              match validateProcessGroupsOnAllocs m with
              | Some err => Some err
              | None => None
              end
          end
      end
  end.

Definition defaultMachineMetadata (m : v2PlatformMigrator) : gmap string string :=
  let res : gmap string string :=
    <[MachineConfigMetadataKeyFlyProcessGroup := MachineProcessGroupApp]>
    (<[MachineConfigMetadataKeyFlyReleaseVersion := pretty (releaseVersion m)]>
    (<[MachineConfigMetadataKeyFlyReleaseId := releaseId m]>
    (<[MachineConfigMetadataKeyFlyPlatformVersion := MachineFlyPlatformVersion2]> ∅))) in
  if ac_IsPostgresApp (appCompact m)
  then <[MachineConfigMetadataKeyFlyManagedPostgres := "true"]> res
  else res.

(** [m.processConfigs[alloc.TaskName]] is a nil pointer for an unknown
    process group, and reading its [Services] panics. *)
Definition resolveMachineFromAlloc (m : v2PlatformMigrator) (alloc : AllocationStatus)
  : outcome LaunchMachineInput :=
  let env0 := Env (appConfig m) in
  let env := if bool_decide (PrimaryRegion (appConfig m) ≠ "")
             then <["PRIMARY_REGION" := PrimaryRegion (appConfig m)]> env0
             else env0 in
  let mounts := match AttachedVolumes alloc with
                | [vol] => [{| mount_Path := volumeDestination m; mount_Volume := vol |}]
                | _ => []
                end in
  match processConfigs m !! TaskName alloc with
  | None => Panicked nilDereference
  | Some processConfig =>
      Built {| li_AppID := app_Name (appFull m);
               li_OrgSlug := app_OrganizationID (appFull m);
               li_Region := Region alloc;
               li_Config :=
                 {| mc_Guest := machineGuest m;
                    mc_Metadata := <[MachineConfigMetadataKeyFlyProcessGroup := TaskName alloc]>
                                     (defaultMachineMetadata m);
                    mc_Image := img m;
                    mc_Env := env;
                    mc_Metrics := Metrics (appConfig m);
                    mc_Statics := Statics (appConfig m);
                    mc_Mounts := mounts;
                    mc_Services := Services processConfig;
                    mc_Checks := Checks processConfig;
                    mc_InitCmd := Cmd processConfig |} |}
  end.

Fixpoint resolveMachinesFromAllocs_loop (m : v2PlatformMigrator)
    (allocs : list AllocationStatus) (res : list LaunchMachineInput)
  : outcome (list LaunchMachineInput) :=
  match allocs with
  | [] => Built res
  | alloc :: rest =>
      match resolveMachineFromAlloc m alloc with
      | Built mach => resolveMachinesFromAllocs_loop m rest (res ++ [mach])
      | Failed err => Failed err
      | Panicked what => Panicked what
      end
  end.

Definition resolveMachinesFromAllocs (m : v2PlatformMigrator)
  : outcome (list LaunchMachineInput) :=
  resolveMachinesFromAllocs_loop m (oldAllocs m) [].

Definition prepMachinesToCreate (m : v2PlatformMigrator) : outcome v2PlatformMigrator :=
  match resolveMachinesFromAllocs m with
  | Built inputs => Built (set_newMachinesInput inputs m)
  | Failed err => Failed err
  | Panicked what => Panicked what
  end.

Definition resolveProcessGroups (m : v2PlatformMigrator) : v2PlatformMigrator :=
  set_oldVmCounts
    (foldl (λ (counts : gmap string nat) alloc,
              <[TaskName alloc := S (default 0 (counts !! TaskName alloc))]> counts)
           ∅ (oldAllocs m))
    m.

Definition determineConfigPath (m : v2PlatformMigrator) : error + v2PlatformMigrator :=
  let path := match flagConfig P with
              | Some p => p
              | None => workingDirectory P
              end in
  match resolveConfigFileFromPath P path with
  | inl err => inl err
  | inr configPath => inr (set_configPath configPath m)
  end.

(** [determinePrimaryRegion]: the prompt is only shown when the
    configuration has no PRIMARY_REGION. *)
Definition determinePrimaryRegion (m : v2PlatformMigrator) (t : trace)
  : (error + v2PlatformMigrator) * trace :=
  match Env (appConfig m) !! "PRIMARY_REGION" with
  | Some val => (inr (set_appConfig (set_PrimaryRegion val (appConfig m)) m), t)
  | None =>
      let t' := t ++ [PromptRegion] in
      match promptRegion P (negb (app_PaidPlan (appFull m))) with
      | inl err => (inl err, t')
      | inr None => (inl (ErrNew "no region provided"), t')
      | inr (Some code) => (inr (set_appConfig (set_PrimaryRegion code (appConfig m)) m), t')
      end
  end.

Definition determineAppConfigForMachines (appNameFromContext : string) (t : trace)
  : (error + Config) * trace :=
  let named (cfg : Config) :=
    if bool_decide (appNameFromContext ≠ "") then set_AppName appNameFromContext cfg
    else cfg in
  match configFromContext P with
  | Some cfg => (inr (named cfg), t)
  | None =>
      let t' := t ++ [FromRemoteApp appNameFromContext] in
      match fromRemoteApp P appNameFromContext with
      | inl err => (inl err, t')
      | inr cfg => (inr (named cfg), t')
      end
  end.

Definition determineVmSpecs (vmSize : VMSize) : error + MachineGuest :=
  let preset := replaceFirst "dedicated-cpu" "performance" (vm_Name vmSize) in
  match setSize P preset with
  | inl err => inl (ErrWrap "nomad VM definition incompatible with machines API: " err)
  | inr guest => inr {| CPUKind := CPUKind guest; CPUs := CPUs guest;
                        MemoryMB := vm_MemoryMB vmSize |}
  end.

End Construction.

(** The constructor runs before any [state] exists: it threads the call log
    and ends in an [outcome]. *)
Definition C (A : Type) : Type := trace → outcome A * trace.

Definition retC {A} (a : A) : C A := λ t, (Built a, t).

Definition bindC {A B} (c : C A) (k : A → C B) : C B :=
  λ t, match c t with
       | (Built a, t') => k a t'
       | (Failed err, t') => (Failed err, t')
       | (Panicked what, t') => (Panicked what, t')
       end.

Notation "'let!' x ':=' c 'in' k" := (bindC c (λ x, k))
  (at level 10, x pattern, c at level 100, k at level 200, only parsing).

Definition ofResult {A} (r : error + A) : outcome A :=
  match r with
  | inl err => Failed err
  | inr a => Built a
  end.

(** A read that is logged as [e] and answered by [r]. *)
Definition reading {A} (e : event) (r : error + A) : C A :=
  λ t, (ofResult r, t ++ [e]).

(** A local computation: nothing is logged. *)
Definition localC {A} (r : error + A) : C A := λ t, (ofResult r, t).

Definition checkC (r : option error) : C unit :=
  λ t, (match r with Some err => Failed err | None => Built tt end, t).

Definition wrapErr {A} (prefix : string) (r : error + A) : error + A :=
  match r with
  | inl err => inl (ErrWrap prefix err)
  | inr a => inr a
  end.

Definition NewV2PlatformMigrator (P : Platform) (W : World) (appName : string)
  : C v2PlatformMigrator :=
  let! appCompact := reading (GetAppCompact appName) (getAppCompact P appName) in
  let! _ := (λ t, (match flapsNew P appCompact with
                   | Some err => Failed err
                   | None => Built tt
                   end, t ++ [FlapsNew (ac_Name appCompact)])) in
  let! appFull := reading (GetApp appName) (getApp P appName) in
  if bool_decide (app_PlatformVersion appFull = "machines")
  then (λ t, (Failed (ErrNew ("the app '" +:+ appName
                                +:+ "' is already on the apps v2 platform")), t))
  else
    let! appConfig := (λ t, let '(r, t') := determineAppConfigForMachines P appName t in
                            (ofResult r, t')) in
    let! processConfigs := localC (getProcessConfigs P appConfig) in
    let! autoscaleConfig :=
      reading (AppAutoscalingConfig appName) (appAutoscalingConfig P appName) in
    let! imageInfo :=
      reading (GetImageInfo appName)
              (wrapErr "failed to get image info: " (getImageInfo P appName)) in
    let img := Registry imageInfo +:+ "/" +:+ Repository imageInfo +:+ ":" +:+ Tag imageInfo in
    let! allocs := (λ t, (ofResult (apiGetAllocations W t), t ++ [GetAllocations appName])) in
    let! vmSize := reading (AppVMResources appName) (appVMResources P appName) in
    let! machineGuest := localC (determineVmSpecs P vmSize) in
    let leaseTimeout := 13 in
    let leaseDelayBetween := (leaseTimeout - 1) / 3 in
    let migrator :=
      {| leaseTimeout := leaseTimeout;
         leaseDelayBetween := leaseDelayBetween;
         appCompact := appCompact;
         appFull := appFull;
         appConfig := appConfig;
         configPath := "";
         autoscaleConfig := autoscaleConfig;
         volumeDestination := default "" (Mounts appConfig);
         processConfigs := processConfigs;
         img := img;
         appLock := "";
         releaseId := "";
         releaseVersion := 0;
         oldAllocs := allocs;
         machineGuest := machineGuest;
         oldVmCounts := ∅;
         newMachinesInput := [];
         newMachines := [];
         canAvoidDowntime := true;
         recovery := {| machinesCreated := [];
                        appLocked := false;
                        scaledToZero := false;
                        platformVersion := app_PlatformVersion appFull;
                        onlyPromptToConfigSave := false |} |} in
    let! _ := checkC (validate P migrator) in
    let! migrator := (λ t, let '(r, t') := determinePrimaryRegion P migrator t in
                           (ofResult r, t')) in
    let! migrator := (λ t, (prepMachinesToCreate migrator, t)) in
    let! migrator := localC (determineConfigPath P migrator) in
    retC (resolveProcessGroups migrator).

(** ** Waiting for a machine to start or stop *)

Definition actionErr : error := ErrNew "action must be either start or stop".

Section Waiting.

Variable W : World.

(** The [for] loop of [WaitForStartOrStop].  [None] means that [fuel]
    iterations were not enough to leave the loop. *)
Fixpoint waitLoop (fuel : nat) (machine : Machine) (waitOnAction : string) (t : trace)
  : option (option error) * trace :=
  match fuel with
  | 0 => (None, t)
  | S fuel' =>
      let call := Wait (ID machine) waitOnAction in
      let t' := t ++ [call] in
      match status W t call with
      | None => (Some None, t')
      | Some err =>
          match waitCtxErr W t' with
          | CtxCanceled => (Some (Some err), t')
          | CtxDeadlineExceeded =>
              (Some (Some (ErrWrap ("timeout reached waiting for machine to "
                                      +:+ waitOnAction +:+ " ") err)), t')
          | CtxLive =>
              if bool_decide (asFlapsError err = Some 400)
              then (Some (Some (ErrWrap "failed waiting for machine: " err)), t')
              else waitLoop fuel' machine waitOnAction (t' ++ [Sleep])
          end
      end
  end.

Definition WaitForStartOrStop (fuel : nat) (machine : Machine) (action : string) (t : trace)
  : option (option error) * trace :=
  if bool_decide (action = "start") then waitLoop fuel machine "started" t
  else if bool_decide (action = "stop") then waitLoop fuel machine "stopped" t
  else (Some (Some actionErr), t).

End Waiting.

(** * Reading a run *)

(** What [Migrate] may log before it asks for the leases. *)
Definition isPrelude (e : event) : bool :=
  match e with
  | LockApp _ | AbortLoad | SetNomadVMCount _ _ _ | Sleep | GetAllocations _
  | SetPlatformVersion _ _ _ | MigrateMachinesCreateRelease _ _ | Launch _ | ListActive => true
  | _ => false
  end.

(** The calls from the acquisition of the leases to the return of the
    cutover trigger, in a run where each of them succeeds. *)
Definition cutoverSegment (m : v2PlatformMigrator) : list event :=
  [AcquireLeases (newMachines m) (leaseTimeout m);
   AbortLoad;
   StartBackgroundLeaseRefresh (newMachines m) (leaseTimeout m) (leaseDelayBetween m);
   UnlockApp (AppName (appConfig m)) (appLock m);
   AbortLoad;
   ReleaseLeases (newMachines m);
   NewMachineDeployment (ac_Name (appCompact m));
   DeployMachinesApp (ac_Name (appCompact m))].

(** Whether every call of the cutover trigger in a log happens while the
    leases are held; [held] is the situation before the log. *)
Fixpoint cutoverUnderLease (held : bool) (t : trace) : bool :=
  match t with
  | [] => true
  | AcquireLeases _ _ :: t' => cutoverUnderLease true t'
  | ReleaseLeases _ :: t' => cutoverUnderLease false t'
  | NewMachineDeployment _ :: t' => held && cutoverUnderLease held t'
  | DeployMachinesApp _ :: t' => held && cutoverUnderLease held t'
  | _ :: t' => cutoverUnderLease held t'
  end.

(** The group counts of the scale requests of a log. *)
Definition scaleRequests (t : trace) : list (list (string * nat)) :=
  omap (λ e, match e with SetNomadVMCount _ counts _ => Some counts | _ => None end) t.

(** The same world with another abort flag. *)
Definition withAbort (flag : trace → bool) (W : World) : World :=
  {| status := status W; gqlLockApp := gqlLockApp W; gqlCreateRelease := gqlCreateRelease W;
     flapsLaunch := flapsLaunch W; apiGetAllocations := apiGetAllocations W;
     abortedLoad := flag; deadlineFirst := deadlineFirst W; waitCtxErr := waitCtxErr W |}.

(** The destroy call that rollback issues for a machine. *)
Definition destroyEvent (appId : string) (mach : Machine) : event :=
  Destroy appId (ID mach) true.

(** The machine ids of the destroy calls of a log, in order. *)
Definition destroyed (t : trace) : list string :=
  omap (λ e, match e with Destroy _ id _ => Some id | _ => None end) t.

(** What the deferred function of [rollback] may log. *)
Definition isCleanup (e : event) : bool :=
  match e with
  | UnlockApp _ _ | ResumeApp _ | ErrOut _ => true
  | _ => false
  end.

(** The two moves of a step: log an event, update the migrator. *)
Definition logged (e : event) (st : state) : state :=
  {| log := log st ++ [e]; mig := mig st |}.

Definition changed (g : v2PlatformMigrator → v2PlatformMigrator) (st : state) : state :=
  {| log := log st; mig := g (mig st) |}.

(** The log only grows, by events that satisfy [p]. *)
Definition grows (p : event → bool) (st st' : state) : Prop :=
  ∃ new, log st' = log st ++ new ∧ forallb p new = true.

(** The projection [f] of the migrator is the same. *)
Definition keeps {B} (f : v2PlatformMigrator → B) (st st' : state) : Prop :=
  f (mig st') = f (mig st).

(** The two flags of the recovery state that the run of [Migrate] turns on. *)
Definition pastNoReturn (m : v2PlatformMigrator) : bool :=
  onlyPromptToConfigSave (recovery m).

Definition lockHeld (m : v2PlatformMigrator) : bool := appLocked (recovery m).

(** [stays R c]: every run of [c] relates the state before to the state
    after by [R]. *)
Definition stays (R : state → state → Prop) {A} (c : M A) : Prop :=
  ∀ st, R st (c st).2.

(** A step ignores the abort flag when it runs the same whatever the flag
    says while it runs. *)
Definition ignoresAbort (step : World → M (option error)) : Prop :=
  ∀ W flag st, step (withAbort flag W) st = step W st.

(** The steps of [Migrate] and the rollback; the checkpoints stand between
    them. *)
Definition migrationSteps : list (World → M (option error)) :=
  [lockAppForMigration; scaleNomadToZero;
   (λ W, updateAppPlatformVersion W "detached");
   createRelease; createMachines; acquireLeases;
   (λ _, startBackgroundLeaseRefresh);
   unlockApp; releaseLeases; deployApp;
   (λ W, updateAppPlatformVersion W "machines");
   Migrate_saveConfig; rollback].

(** ** Reading a plan and a run, continued *)

(** The same world with another state of the wait context. *)
Definition withWaitCtx (c : ctxErr) (W : World) : World :=
  {| status := status W; gqlLockApp := gqlLockApp W; gqlCreateRelease := gqlCreateRelease W;
     flapsLaunch := flapsLaunch W; apiGetAllocations := apiGetAllocations W;
     abortedLoad := abortedLoad W; deadlineFirst := deadlineFirst W;
     waitCtxErr := λ _, c |}.

(** The two calls by which the body of [rollback] puts the application back
    on nomad: the reset of the platform version and the restore of the
    instance counts. *)
Definition isReset (e : event) : bool :=
  match e with
  | SetPlatformVersion _ _ _ | SetNomadVMCount _ _ _ => true
  | _ => false
  end.




(** The calls by which [rollback] takes a migration back: destroying a
    machine, resuming the application, resetting the platform version to
    nomad. *)
Definition isUndo (e : event) : bool :=
  match e with
  | Destroy _ _ _ | ResumeApp _ => true
  | SetPlatformVersion _ platform _ => bool_decide (platform = "nomad")
  | _ => false
  end.

Definition notUndo (e : event) : bool := negb (isUndo e).

(** What the constructor decides and [Migrate] works from. *)
Record Plan := {
  plan_appCompact : AppCompact;
  plan_appFull : App;
  plan_appConfig : Config;
  plan_configPath : string;
  plan_img : string;
  plan_processConfigs : gmap string ProcessConfig;
  plan_oldAllocs : list AllocationStatus;
  plan_oldVmCounts : gmap string nat;
  plan_machineGuest : MachineGuest;
  plan_newMachinesInput : list LaunchMachineInput;
  plan_canAvoidDowntime : bool;
  plan_leaseTimeout : nat;
  plan_leaseDelayBetween : nat
}.

Definition planOf (m : v2PlatformMigrator) : Plan :=
  {| plan_appCompact := appCompact m; plan_appFull := appFull m;
     plan_appConfig := appConfig m; plan_configPath := configPath m;
     plan_img := img m; plan_processConfigs := processConfigs m;
     plan_oldAllocs := oldAllocs m; plan_oldVmCounts := oldVmCounts m;
     plan_machineGuest := machineGuest m;
     plan_newMachinesInput := newMachinesInput m;
     plan_canAvoidDowntime := canAvoidDowntime m;
     plan_leaseTimeout := leaseTimeout m;
     plan_leaseDelayBetween := leaseDelayBetween m |}.

(** What holds between an alloc and the launch input planned for it. *)
Definition plannedFor (m : v2PlatformMigrator) (alloc : AllocationStatus)
    (input : LaunchMachineInput) : Prop :=
  resolveMachineFromAlloc m alloc = Built input
  ∧ li_Region input = Region alloc
  ∧ mc_Image (li_Config input) = img m
  ∧ mc_Metadata (li_Config input) !! MachineConfigMetadataKeyFlyProcessGroup
    = Some (TaskName alloc)
  ∧ (PrimaryRegion (appConfig m) ≠ "" →
     mc_Env (li_Config input) !! "PRIMARY_REGION" = Some (PrimaryRegion (appConfig m))).

(** The allocs of a process group. *)
Definition allocsOf (group : string) (allocs : list AllocationStatus) : nat :=
  length (List.filter (λ a, bool_decide (TaskName a = group)) allocs).


(** A call returns when it ends with a value or with an [error], not in a
    panic. *)
Definition returns {A} (o : outcome A) : Prop :=
  match o with
  | Panicked _ => False
  | _ => True
  end.

(** ** The command *)




(** One failed attempt of [WaitForStartOrStop] that is retried. *)
Definition retriedWait (machine : Machine) (state : string) : list event :=
  [Wait (ID machine) state; Sleep].

(** * A concrete application

    The scenario of the specification: three legacy instances in the process
    groups web (two) and worker (one), and worlds in which chosen calls
    fail. *)

Module Shop.

Definition web : ProcessConfig := {| Cmd := []; Services := ["http"]; Checks := ∅ |}.
Definition worker : ProcessConfig := {| Cmd := ["work"]; Services := []; Checks := ∅ |}.

Definition alloc (id group region : string) : AllocationStatus :=
  {| IDShort := id; TaskName := group; Region := region; AttachedVolumes := [] |}.

Definition allocs : list AllocationStatus :=
  [alloc "a1" "web" "ams"; alloc "a2" "web" "ams"; alloc "a3" "worker" "fra"].

Definition config : Config :=
  {| AppName := "shop"; Env := {[ "PRIMARY_REGION" := "ams" ]}; PrimaryRegion := "";
     Mounts := None; Metrics := None; Statics := [] |}.

Definition platform (autoscaling : bool) : Platform :=
  {| getAppCompact := λ n, inr {| ac_Name := n; ac_IsPostgresApp := false |};
     flapsNew := λ _, None;
     getApp := λ n, inr {| app_Name := n; app_PlatformVersion := "nomad";
                           app_OrganizationID := "org"; app_PaidPlan := true |};
     configFromContext := Some config;
     fromRemoteApp := λ _, inl (ErrNew "no remote configuration");
     getProcessConfigs := λ _, inr {[ "web" := web; "worker" := worker ]};
     appAutoscalingConfig := λ _, inr {| Enabled := autoscaling |};
     getImageInfo := λ _, inr {| Registry := "registry.fly.io"; Repository := "shop";
                                 Tag := "v1" |};
     appVMResources := λ _, inr {| vm_Name := "dedicated-cpu-1x"; vm_MemoryMB := 2048 |};
     setSize := λ preset, inr {| CPUKind := preset; CPUs := 1; MemoryMB := 256 |};
     validateForMachinesPlatform := λ _, None;
     promptRegion := λ _, inr None;
     workingDirectory := "/srv/shop";
     flagConfig := None;
     resolveConfigFileFromPath := λ path, inr (path +:+ "/fly.toml") |}.

Definition launches (t : trace) : nat :=
  length (List.filter (λ e, match e with Launch _ => true | _ => false end) t).

Definition scaledDown (t : trace) : bool :=
  existsb (λ e, match e with SetNomadVMCount _ _ _ => true | _ => false end) t.

(** The machines API names the n-th machine it creates mn; the legacy
    instances are gone once a scale request has been sent.  [statusOf]
    answers the calls that only return an error, [launchFails] says whether
    the launch after the log fails, [abort] is the abort flag, and
    [allocsFail] makes every poll of the legacy instances fail. *)
Definition world (statusOf : trace → event → option error) (launchFails : trace → bool)
    (abort : trace → bool) (allocsFail : bool) (fleet : list AllocationStatus) : World :=
  {| status := statusOf;
     gqlLockApp := λ _, inr "lock-1";
     gqlCreateRelease := λ _, inr ("rel-1", 7%Z);
     flapsLaunch := λ t input,
       if launchFails t then inl (ErrFlaps 500 "no capacity")
       else inr {| ID := "m" +:+ pretty (S (launches t)); machine_Region := li_Region input |};
     apiGetAllocations := λ t,
       if scaledDown t
       then (if allocsFail then inl (ErrNew "connection reset") else inr [])
       else inr fleet;
     abortedLoad := abort;
     deadlineFirst := λ _, false;
     waitCtxErr := λ _, CtxLive |}.

Definition allOk : trace → event → option error := λ _ _, None.
Definition never : trace → bool := λ _, false.

(** Every call succeeds and nobody aborts. *)
Definition calm : World := world allOk never never false allocs.

(** The third launch fails, and so does every attempt to destroy m1. *)
Definition thirdLaunchFails : World :=
  world (λ _ e, match e with
                | Destroy _ "m1" _ => Some (ErrFlaps 500 "machine is busy")
                | _ => None
                end)
        (λ t, bool_decide (launches t = 2)) never false allocs.

(** The abort flag is raised while the third machine is being created. *)
Definition abortAfterCreation : World :=
  world allOk never (λ t, bool_decide (3 ≤ launches t)) false allocs.


(** The scale request is accepted, the polls that follow it fail. *)
Definition pollsFail : World := world allOk never never true allocs.

(** The first wait on a machine is answered 500, the second succeeds; the
    polls of the legacy instances fail as in [pollsFail]. *)
Definition flakyWait : World :=
  world (λ t e, match e with
                | Wait _ _ => if bool_decide (t = []) then Some (ErrFlaps 500 "internal error")
                              else None
                | _ => None
                end) never never true allocs.

Definition built (autoscaling : bool) (w : World) : outcome v2PlatformMigrator :=
  (NewV2PlatformMigrator (platform autoscaling) w "shop" []).1.

Definition blank : v2PlatformMigrator :=
  {| leaseTimeout := 0; leaseDelayBetween := 0;
     appCompact := {| ac_Name := ""; ac_IsPostgresApp := false |};
     appFull := {| app_Name := ""; app_PlatformVersion := ""; app_OrganizationID := "";
                   app_PaidPlan := false |};
     appConfig := config; configPath := ""; autoscaleConfig := {| Enabled := false |};
     volumeDestination := ""; processConfigs := ∅; img := ""; appLock := "";
     releaseId := ""; releaseVersion := 0; oldAllocs := [];
     machineGuest := {| CPUKind := ""; CPUs := 0; MemoryMB := 0 |};
     oldVmCounts := ∅; newMachinesInput := []; newMachines := [];
     canAvoidDowntime := true;
     recovery := {| machinesCreated := []; appLocked := false; scaledToZero := false;
                    platformVersion := ""; onlyPromptToConfigSave := false |} |}.

(** The migrator the constructor builds for the shop. *)
Definition migrator : v2PlatformMigrator :=
  match built false calm with
  | Built m => m
  | _ => blank
  end.

Definition start : state := {| log := []; mig := migrator |}.

(** The shop right after a scale request. *)
Definition scaled : state :=
  {| log := [SetNomadVMCount "shop" [("worker", 0); ("web", 0)] "lock-1"]; mig := migrator |}.

Definition m1 : Machine := {| ID := "m1"; machine_Region := "ams" |}.
Definition m2 : Machine := {| ID := "m2"; machine_Region := "ams" |}.
Definition m3 : Machine := {| ID := "m3"; machine_Region := "fra" |}.

Definition blankInput : LaunchMachineInput :=
  {| li_AppID := ""; li_OrgSlug := ""; li_Region := "";
     li_Config := {| mc_Guest := machineGuest blank; mc_Metadata := ∅; mc_Image := "";
                     mc_Env := ∅; mc_Metrics := None; mc_Statics := []; mc_Mounts := [];
                     mc_Services := []; mc_Checks := ∅; mc_InitCmd := [] |} |}.

(** The launch inputs of the plan: two for web, then the one for worker. *)
Definition webInputs : list LaunchMachineInput := take 2 (newMachinesInput migrator).
Definition workerInput : LaunchMachineInput :=
  List.nth 2 (newMachinesInput migrator) blankInput.

(** A legacy instance whose process group the configuration does not know. *)
Definition strayFleet : list AllocationStatus := allocs ++ [alloc "a4" "cron" "ams"].

Definition strayWorld : World := world allOk never never false strayFleet.

(** Every wait on a machine is answered 500. *)
Definition waitFails : World :=
  world (λ _ e, match e with
                | Wait _ _ => Some (ErrFlaps 500 "internal error")
                | _ => None
                end) never never false allocs.

(** ... while the wait context is cancelled, or past its deadline. *)
Definition waitCancelled : World := withWaitCtx CtxCanceled waitFails.
Definition waitTimedOut : World := withWaitCtx CtxDeadlineExceeded waitFails.

(** Every wait on a machine is answered 400. *)
Definition waitRejected : World :=
  world (λ _ e, match e with
                | Wait _ _ => Some (ErrFlaps 400 "bad request")
                | _ => None
                end) never never false allocs.



(** The abort flag is raised while the third machine is being created, and
    every attempt to destroy m1 fails. *)
Definition abortThenBusy : World :=
  world (λ _ e, match e with
                | Destroy _ "m1" _ => Some (ErrFlaps 500 "machine is busy")
                | _ => None
                end)
        never (λ t, bool_decide (3 ≤ launches t)) false allocs.


End Shop.

(** * Properties *)

(** ** Sequencing *)

Lemma andThen_None (c k : M (option error)) st st' :
  (c ;;; k) st = (None, st') →
  ∃ st1, c st = (None, st1) ∧ k st1 = (None, st').
Proof.
  unfold andThen. destruct (c st) as [[e|] st1]; intros H.
  - discriminate.
  - eauto.
Qed.

Lemma andThen_Some (c k : M (option error)) st e st' :
  (c ;;; k) st = (Some e, st') →
  c st = (Some e, st') ∨ ∃ st1, c st = (None, st1) ∧ k st1 = (Some e, st').
Proof.
  unfold andThen. destruct (c st) as [[e1|] st1]; intros H.
  - left. exact H.
  - right. eauto.
Qed.

Lemma andThen_ok (c k : M (option error)) st st1 :
  c st = (None, st1) → (c ;;; k) st = k st1.
Proof. unfold andThen. intros ->. reflexivity. Qed.

Lemma andThen_err (c k : M (option error)) st e st1 :
  c st = (Some e, st1) → (c ;;; k) st = (Some e, st1).
Proof. unfold andThen. intros ->. reflexivity. Qed.

(** ** Reading the call log *)

Lemma destroyed_app t1 t2 : destroyed (t1 ++ t2) = destroyed t1 ++ destroyed t2.
Proof. unfold destroyed. apply omap_app. Qed.

Lemma destroyed_destroyEvents appId (machines : list Machine) :
  destroyed (destroyEvent appId <$> machines) = ID <$> machines.
Proof. induction machines as [|x l IH]; simpl; [reflexivity|]. f_equal. exact IH. Qed.

Lemma destroyed_cleanup t : forallb isCleanup t = true → destroyed t = [].
Proof.
  induction t as [|e t IH]; simpl; [reflexivity|].
  intros [He Ht]%andb_prop. destruct e; try discriminate; simpl; auto.
Qed.

(** ** The destroy loop of rollback *)

Lemma destroyAll_None W machines st st' :
  destroyAll W machines st = (None, st') →
  log st' = log st ++ (destroyEvent (app_Name (appFull (mig st))) <$> machines)
  ∧ mig st' = mig st.
Proof.
  revert st. induction machines as [|x l IH]; intros st H; simpl in H.
  - inversion H; subst. rewrite app_nil_r. auto.
  - apply andThen_None in H as (st1 & H1 & H2).
    unfold call in H1. inversion H1; subst; clear H1.
    apply IH in H2 as [-> ->]. simpl. rewrite <- app_assoc. auto.
Qed.

Lemma destroyAll_first_failure W pre x post st st1 e :
  destroyAll W pre st = (None, st1) →
  status W (log st1) (destroyEvent (app_Name (appFull (mig st))) x) = Some e →
  destroyAll W (pre ++ x :: post) st
  = (Some e, {| log := log st ++ (destroyEvent (app_Name (appFull (mig st))) <$> pre ++ [x]);
                mig := mig st |}).
Proof.
  unfold destroyEvent. revert st.
  induction pre as [|y l IH]; intros st H Hx; simpl in *.
  - inversion H; subst. apply andThen_err. unfold call. rewrite Hx. reflexivity.
  - unfold andThen at 1 in H. unfold andThen at 1. unfold call at 1 in H. unfold call at 1.
    destruct (status W (log st) _) as [e'|]; [discriminate|].
    rewrite (IH _ H Hx). simpl. rewrite <- app_assoc. reflexivity.
Qed.

(** The loop always issues the destroy calls of a prefix of the list, and of
    the whole list when it returns [nil]. *)
Lemma destroyAll_prefix W machines st err st' :
  destroyAll W machines st = (err, st') →
  ∃ n, n ≤ length machines
       ∧ log st' = log st ++ (destroyEvent (app_Name (appFull (mig st))) <$> take n machines)
       ∧ mig st' = mig st
       ∧ (err = None → n = length machines).
Proof.
  revert st. induction machines as [|x l IH]; intros st H; simpl in H.
  - inversion H; subst. exists 0. simpl. rewrite app_nil_r. auto.
  - unfold andThen, call in H.
    destruct (status W (log st) _) as [e|] eqn:E.
    + inversion H; subst. exists 1. simpl.
      split; [lia|]. split; [reflexivity|]. split; [reflexivity|]. discriminate.
    + apply IH in H as (n & Hn & Hlog & Hmig & Hall).
      exists (S n). simpl in *. rewrite Hlog, Hmig, <- app_assoc.
      split; [lia|]. split; [reflexivity|]. split; [reflexivity|].
      intros H. f_equal. auto.
Qed.

Lemma destroyAll_all_ok W machines st :
  (∀ t x, x ∈ machines →
          status W t (destroyEvent (app_Name (appFull (mig st))) x) = None) →
  (destroyAll W machines st).1 = None.
Proof.
  revert st. induction machines as [|x l IH]; intros st Hok; simpl; [reflexivity|].
  unfold andThen, call at 1. rewrite (Hok _ x) by (left). apply IH.
  intros t y Hy. simpl. apply Hok. right. exact Hy.
Qed.

(** ** Rollback *)

Ltac unfold_steps :=
  unfold bind, ret, andThen, call, updateOk, update, emit, checkAbort in *.

(** The deferred part of [rollback] logs only an unlock (when the recovery
    state says the lock is held), the resume, and their error messages. *)
Lemma rollback_deferred_log W st :
  ∃ rest,
    log (rollback_deferred W st).2 = log st ++ rest
    ∧ forallb isCleanup rest = true
    ∧ ResumeApp (ac_Name (appCompact (mig st))) ∈ rest
    ∧ (appLocked (recovery (mig st)) = true →
       UnlockApp (AppName (appConfig (mig st))) (appLock (mig st)) ∈ rest).
Proof.
  unfold rollback_deferred, unlockApp. unfold_steps.
  destruct (appLocked (recovery (mig st))) eqn:Hl; simpl.
  - destruct (status W (log st) (UnlockApp _ _)) as [e|]; simpl;
      match goal with
      | |- context [status W ?t (ResumeApp ?n)] =>
          destruct (status W t (ResumeApp n)) as [e'|]
      end; simpl;
      try destruct (contains _ _); simpl;
      rewrite <- ?app_assoc; simpl;
      (eexists; split; [reflexivity|]; split; [reflexivity|];
       split; [|intros _]; set_solver).
  - destruct (status W (log st) (ResumeApp _)) as [e'|]; simpl;
      try destruct (contains _ _); simpl;
      rewrite <- ?app_assoc; simpl;
      (eexists; split; [reflexivity|]; split; [reflexivity|];
       split; [|discriminate]; set_solver).
Qed.

(** When the unlock call is accepted (or the lock is not held), the recovery
    state ends unlocked. *)
Lemma rollback_deferred_unlocked W st :
  (appLocked (recovery (mig st)) = true →
   status W (log st) (UnlockApp (AppName (appConfig (mig st))) (appLock (mig st))) = None) →
  appLocked (recovery (mig (rollback_deferred W st).2)) = false.
Proof.
  unfold rollback_deferred, unlockApp. unfold_steps.
  destruct (appLocked (recovery (mig st))) eqn:Hl; simpl; intros H.
  - rewrite H by reflexivity. simpl.
    match goal with
    | |- context [status W ?t (ResumeApp ?n)] => destruct (status W t (ResumeApp n)) as [e'|]
    end; simpl; try destruct (contains _ _); reflexivity.
  - destruct (status W (log st) (ResumeApp _)) as [e'|]; simpl;
      try destruct (contains _ _); simpl; exact Hl.
Qed.

(** The body of [rollback]: destroy calls for a prefix of the recorded
    machines, then calls that destroy nothing. *)
Lemma rollback_body_log W st err st' :
  rollback_body W st = (err, st') →
  let recorded := machinesCreated (recovery (mig st)) in
  ∃ n rest,
    n ≤ length recorded
    ∧ log st' = log st ++ (destroyEvent (app_Name (appFull (mig st))) <$> take n recorded) ++ rest
    ∧ destroyed rest = []
    ∧ ((destroyAll W recorded st).1 = None → n = length recorded)
    ∧ ac_Name (appCompact (mig st')) = ac_Name (appCompact (mig st))
    ∧ AppName (appConfig (mig st')) = AppName (appConfig (mig st))
    ∧ appLock (mig st') = appLock (mig st)
    ∧ appLocked (recovery (mig st')) = appLocked (recovery (mig st)).
Proof.
  intros H recorded. subst recorded. unfold rollback_body in H.
  unfold andThen at 1 in H.
  destruct (destroyAll W (machinesCreated (recovery (mig st))) st) as [derr st1] eqn:D.
  destruct (destroyAll_prefix _ _ _ _ _ D) as (n & Hn & Hlog & Hmig & Hall).
  exists n. destruct derr as [e|].
  - inversion H; subst. exists []. rewrite app_nil_r, Hmig. auto 10.
  - unfold updateAppPlatformVersion in H. unfold_steps. rewrite !Hmig in H.
    repeat match type of H with
           | context [if ?b then _ else _] => destruct b
           | context [match status W ?t ?e with _ => _ end] => destruct (status W t e)
           end; simpl in H; inversion H; subst; simpl;
      rewrite ?Hlog, ?Hmig, <- ?app_assoc; simpl;
      first [ exists []; rewrite app_nil_r; split; [exact Hn|]; split; [reflexivity|]; by auto 10
            | eexists; split; [exact Hn|]; split; [reflexivity|]; by auto 10 ].
Qed.

Lemma rollback_log W st err st' :
  rollback W st = (err, st') →
  let recorded := machinesCreated (recovery (mig st)) in
  ∃ n rest,
    n ≤ length recorded
    ∧ log st' = log st ++ (destroyEvent (app_Name (appFull (mig st))) <$> take n recorded) ++ rest
    ∧ destroyed rest = []
    ∧ ((destroyAll W recorded st).1 = None → n = length recorded)
    ∧ ResumeApp (ac_Name (appCompact (mig st))) ∈ rest
    ∧ (appLocked (recovery (mig st)) = true →
       UnlockApp (AppName (appConfig (mig st))) (appLock (mig st)) ∈ rest).
Proof.
  intros H recorded. subst recorded. unfold rollback, bind, ret in H.
  destruct (rollback_body W st) as [berr st1] eqn:B.
  apply rollback_body_log in B as (n & rest & Hn & Hlog & Hrest & Hall & Hn1 & Hn2 & Hl & Hlk).
  destruct (rollback_deferred_log W st1) as (rest' & Hlog' & Hclean & Hres & Hun).
  destruct (rollback_deferred W st1) as [u st2]. inversion H; subst; clear H. simpl in *.
  exists n, (rest ++ rest'). rewrite Hlog', Hlog, <- !app_assoc.
  split; [exact Hn|]. split; [reflexivity|].
  split; [rewrite destroyed_app, Hrest, (destroyed_cleanup _ Hclean); reflexivity|].
  split; [exact Hall|].
  rewrite Hn1, Hn2, Hl, Hlk in *. split; [set_solver|]. intros Hk. set_solver.
Qed.

(** C2, as amended: rollback issues the destroy calls in the recorded order
    and stops at the first one that fails.  It returns that error, issues no
    destroy call for the machines recorded after the failing one, skips the
    platform-version reset and the restore of the legacy instances, and only
    the deferred unlock and resume still run. *)
Theorem rollback_stops_at_first_failed_destroy W st pre x post st1 e :
  machinesCreated (recovery (mig st)) = pre ++ x :: post →
  destroyAll W pre st = (None, st1) →
  status W (log st1) (destroyEvent (app_Name (appFull (mig st))) x) = Some e →
  (rollback W st).1 = Some e
  ∧ ∃ rest,
      log (rollback W st).2
      = log st ++ (destroyEvent (app_Name (appFull (mig st))) <$> pre ++ [x]) ++ rest
      ∧ forallb isCleanup rest = true
      ∧ ResumeApp (ac_Name (appCompact (mig st))) ∈ rest
      ∧ (appLocked (recovery (mig st)) = true →
         UnlockApp (AppName (appConfig (mig st))) (appLock (mig st)) ∈ rest).
Proof.
  intros Hrec Hpre Hx.
  destruct (rollback W st) as [err st'] eqn:R.
  unfold rollback, bind, ret, rollback_body in R. unfold andThen at 1 in R.
  rewrite Hrec, (destroyAll_first_failure _ _ _ post _ _ _ Hpre Hx) in R.
  match type of R with
  | context [rollback_deferred W ?s] =>
      destruct (rollback_deferred_log W s) as (rest & Hlog & Hclean & Hres & Hun);
      destruct (rollback_deferred W s) as [u st2]
  end.
  inversion R; subst; clear R. simpl in *. split; [reflexivity|].
  exists rest. rewrite Hlog, <- app_assoc. auto.
Qed.

(** Instance: m2, m1 and m3 are recorded and the destroy of m1 fails. *)
Lemma rollback_stops_at_first_failed_destroy_witness :
  let st := {| log := [];
               mig := set_recovery (set_machinesCreated [Shop.m2; Shop.m1; Shop.m3])
                        Shop.migrator |} in
  (rollback Shop.thirdLaunchFails st).1 = Some (ErrFlaps 500 "machine is busy")
  ∧ ∃ rest,
      log (rollback Shop.thirdLaunchFails st).2
      = [] ++ (destroyEvent "shop" <$> [Shop.m2] ++ [Shop.m1]) ++ rest
      ∧ forallb isCleanup rest = true
      ∧ ResumeApp "shop" ∈ rest
      ∧ (false = true → UnlockApp "shop" "" ∈ rest).
Proof.
  apply (rollback_stops_at_first_failed_destroy Shop.thirdLaunchFails
           {| log := [];
              mig := set_recovery (set_machinesCreated [Shop.m2; Shop.m1; Shop.m3])
                       Shop.migrator |}
           [Shop.m2] Shop.m1 [Shop.m3]
           {| log := [Destroy "shop" "m2" true];
              mig := set_recovery (set_machinesCreated [Shop.m2; Shop.m1; Shop.m3])
                       Shop.migrator |}
           (ErrFlaps 500 "machine is busy")).
  - vm_compute. reflexivity.
  - vm_compute. reflexivity.
  - vm_compute. reflexivity.
Defined.

(** C2, as stated, fails: with m1 and m2 recorded and a destroy of m1 that
    fails, rollback never calls destroy for m2. *)
Lemma rollback_abandons_remaining_machines :
  let st := {| log := [];
               mig := set_recovery (set_machinesCreated [Shop.m1; Shop.m2]) Shop.migrator |} in
  Shop.m2 ∈ machinesCreated (recovery (mig st))
  ∧ ID Shop.m2 ∉ destroyed (log (rollback Shop.thirdLaunchFails st).2).
Proof.
  split.
  - simpl. set_solver.
  - assert (destroyed (log (rollback Shop.thirdLaunchFails
                {| log := [];
                   mig := set_recovery (set_machinesCreated [Shop.m1; Shop.m2])
                            Shop.migrator |}).2) = ["m1"]) as -> by (vm_compute; reflexivity).
    simpl. intros H. apply list_elem_of_singleton in H. discriminate.
Qed.

(** ** Creating the machines *)

Lemma launchAll_None W inputs created st created' st' :
  launchAll W inputs created st = ((None, created'), st') →
  length created' = length created + length inputs ∧ mig st' = mig st.
Proof.
  revert created st. induction inputs as [|i l IH]; intros created st H; simpl in H.
  - inversion H; subst. simpl. split; [lia | reflexivity].
  - destruct (flapsLaunch W (log st) i) as [e|mach]; [discriminate|].
    apply IH in H as [Hlen Hmig]. rewrite length_app in Hlen. simpl in *.
    split; [lia | exact Hmig].
Qed.

Lemma launchAll_failure W pre s post created st created1 st1 e :
  launchAll W pre created st = ((None, created1), st1) →
  flapsLaunch W (log st1) s = inl e →
  launchAll W (pre ++ s :: post) created st
  = ((Some (launchErr s e), created1),
     {| log := log st1 ++ [Launch s; ListActive]; mig := mig st1 |}).
Proof.
  revert created st. induction pre as [|i l IH]; intros created st H Hs; simpl in *.
  - inversion H; subst. rewrite Hs. reflexivity.
  - destruct (flapsLaunch W (log st) i) as [e'|mach]; [discriminate|].
    apply (IH _ _ H Hs).
Qed.

(** C1, as amended: when the k-th creation call fails, exactly the k-1
    machines created before it are recorded when [createMachines] returns its
    error; rollback then issues destroy calls, in creation order, for a
    prefix of those k-1 machines and for no other machine, and for all k-1 of
    them when no destroy call fails. *)
Theorem createMachines_failure_then_rollback W st pre s post created st1 e :
  newMachinesInput (mig st) = pre ++ s :: post →
  launchAll W pre [] st = ((None, created), st1) →
  flapsLaunch W (log st1) s = inl e →
  let st2 := (createMachines W st).2 in
  let appId := app_Name (appFull (mig st)) in
  (createMachines W st).1 = Some (launchErr s e)
  ∧ machinesCreated (recovery (mig st2)) = created
  ∧ length created = length pre
  ∧ ∃ n rest,
      n ≤ length created
      ∧ log (rollback W st2).2 = log st2 ++ (destroyEvent appId <$> take n created) ++ rest
      ∧ destroyed rest = []
      ∧ ((∀ t x, x ∈ created → status W t (destroyEvent appId x) = None) →
         n = length created).
Proof.
  intros Hin Hpre Hs st2 appId. subst st2 appId.
  unfold createMachines.
  rewrite Hin, (launchAll_failure _ _ _ post _ _ _ _ _ Hpre Hs). simpl.
  apply launchAll_None in Hpre as [Hlen Hmig]. simpl in Hlen.
  split; [reflexivity|]. split; [reflexivity|]. split; [exact Hlen|].
  match goal with
  | |- context [rollback W ?s] =>
      destruct (rollback W s) as [rerr st3] eqn:R;
      pose proof (destroyAll_all_ok W created s) as Hok
  end.
  apply rollback_log in R as (n & rest & Hn & Hlog & Hrest & Hall & _).
  simpl in *. rewrite Hmig in *.
  exists n, rest. split; [exact Hn|]. split; [exact Hlog|]. split; [exact Hrest|].
  intros Hnone. apply Hall, Hok, Hnone.
Qed.

(** Instance: the launch of the worker machine fails after the two web machines. *)
Lemma createMachines_failure_then_rollback_witness :
  let W := Shop.thirdLaunchFails in
  let st2 := (createMachines W Shop.start).2 in
  let appId := app_Name (appFull (mig Shop.start)) in
  (createMachines W Shop.start).1
  = Some (launchErr Shop.workerInput (ErrFlaps 500 "no capacity"))
  ∧ machinesCreated (recovery (mig st2)) = [Shop.m1; Shop.m2]
  ∧ length [Shop.m1; Shop.m2] = length Shop.webInputs
  ∧ ∃ n rest,
      n ≤ length [Shop.m1; Shop.m2]
      ∧ log (rollback W st2).2
        = log st2 ++ (destroyEvent appId <$> take n [Shop.m1; Shop.m2]) ++ rest
      ∧ destroyed rest = []
      ∧ ((∀ t x, x ∈ [Shop.m1; Shop.m2] → status W t (destroyEvent appId x) = None) →
         n = length [Shop.m1; Shop.m2]).
Proof.
  apply (createMachines_failure_then_rollback Shop.thirdLaunchFails Shop.start
           Shop.webInputs Shop.workerInput [] [Shop.m1; Shop.m2]
           (launchAll Shop.thirdLaunchFails Shop.webInputs [] Shop.start).2
           (ErrFlaps 500 "no capacity")).
  - vm_compute. reflexivity.
  - vm_compute. reflexivity.
  - vm_compute. reflexivity.
Defined.

(** C1, as stated, fails: the third of three creations fails, m1 and m2 are
    recorded, and rollback, whose destroy of m1 fails, never calls destroy
    for m2. *)
Lemma createMachines_rollback_misses_machine :
  let st2 := (createMachines Shop.thirdLaunchFails Shop.start).2 in
  is_Some (createMachines Shop.thirdLaunchFails Shop.start).1
  ∧ ID <$> machinesCreated (recovery (mig st2)) = ["m1"; "m2"]
  ∧ destroyed (log (rollback Shop.thirdLaunchFails st2).2) = ["m1"].
Proof.
  split; [|split].
  - vm_compute. eexists. reflexivity.
  - vm_compute. reflexivity.
  - vm_compute. reflexivity.
Qed.

(** ** Validation and construction *)

(** With autoscaling enabled, [validate] reports success whatever the
    volumes and process groups are. *)
Lemma validate_autoscaling_enabled P m :
  validateForMachinesPlatform P (appConfig m) = None →
  Enabled (autoscaleConfig m) = true →
  validate P m = None.
Proof.
  intros Hcfg Hauto. unfold validate, validateScaling. rewrite Hcfg, Hauto. reflexivity.
Qed.

(** With autoscaling disabled, an instance of an unknown process group makes
    [validate] fail. *)
Lemma validate_unknown_process_group P m a :
  Enabled (autoscaleConfig m) = false →
  a ∈ oldAllocs m →
  processConfigs m !! TaskName a = None →
  is_Some (validate P m).
Proof.
  intros Hauto Ha Hgroup. unfold validate, validateScaling. rewrite Hauto.
  destruct (validateForMachinesPlatform P (appConfig m)); [eauto|].
  destruct (validateVolumes m); [eauto|].
  unfold validateProcessGroupsOnAllocs.
  destruct (List.find _ (oldAllocs m)) as [b|] eqn:F; [eauto|].
  apply list_elem_of_In in Ha.
  pose proof (List.find_none _ _ F a Ha) as Hn. simpl in Hn.
  rewrite bool_decide_eq_false in Hn. contradiction.
Qed.


(** A migrator that the constructor hands out has recorded nothing yet. *)
Lemma NewV2PlatformMigrator_recovery P W appName t m t' :
  NewV2PlatformMigrator P W appName t = (Built m, t') →
  machinesCreated (recovery m) = []
  ∧ appLocked (recovery m) = false
  ∧ scaledToZero (recovery m) = false
  ∧ onlyPromptToConfigSave (recovery m) = false.
Proof.
  unfold NewV2PlatformMigrator, bindC, reading, localC, checkC, retC, ofResult,
    determineAppConfigForMachines, determinePrimaryRegion, prepMachinesToCreate,
    determineConfigPath.
  repeat match goal with
         | |- context [match ?x with _ => _ end] =>
             match x with
             | context [match _ with _ => _ end] => fail 1
             | _ => destruct x eqn:?
             end
         end; simpl; intros H; inversion H; subst; clear H; auto.
Qed.

(** C3: the code at the failing input.  For the shop with autoscaling
    enabled, [validateScaling] produces its error, [validate] nevertheless
    returns [nil], and the constructor hands out a migrator. *)
Theorem validate_drops_autoscaling_error :
  ∃ m, Shop.built true Shop.calm = Built m
       ∧ Enabled (autoscaleConfig m) = true
       ∧ is_Some (validateScaling m)
       ∧ validate (Shop.platform true) m = None.
Proof.
  eexists. split; [vm_compute; reflexivity|].
  split; [reflexivity|]. split; [eexists; reflexivity|].
  apply validate_autoscaling_enabled; reflexivity.
Qed.

(** C7: the code at the failing input.  With autoscaling enabled and a legacy
    instance in the unknown process group cron, the process-group check
    is never reached, and the constructor ends in a nil-pointer panic while
    it prepares the machines; with autoscaling disabled the same fleet is
    rejected by the process-group check. *)
Theorem constructor_panics_on_unknown_process_group :
  Shop.built true Shop.strayWorld = Panicked nilDereference
  ∧ ∃ msg, Shop.built false Shop.strayWorld = Failed (ErrNew msg).
Proof.
  split.
  - vm_compute. reflexivity.
  - eexists. vm_compute. reflexivity.
Qed.

(** ** What a step leaves unchanged

    [stays R c] says that every run of [c] relates the state before to the
    state after by the preorder [R].  The steps are built from two moves,
    logging an event and updating the migrator, so a step stays within [R] as
    soon as [R] contains the moves the step makes. *)

Section Frame.

Variable W : World.
Variable R : state → state → Prop.
Variable allowed : event → Prop.
Variable touched : (v2PlatformMigrator → v2PlatformMigrator) → Prop.

Hypothesis R_refl : ∀ st, R st st.
Hypothesis R_trans : ∀ a b c, R a b → R b c → R a c.
Hypothesis R_log : ∀ st e, allowed e → R st (logged e st).
Hypothesis R_mig : ∀ st g, touched g → R st (changed g st).

Lemma R_same st st' : log st' = log st → mig st' = mig st → R st st'.
Proof. destruct st, st'. simpl. intros -> ->. apply R_refl. Qed.

Lemma R_log2 st e1 e2 :
  allowed e1 → allowed e2 → R st {| log := log st ++ [e1; e2]; mig := mig st |}.
Proof.
  intros H1 H2. apply R_trans with (logged e1 st); [auto|].
  apply R_trans with (logged e2 (logged e1 st)); [auto|].
  apply R_same; simpl; [|reflexivity]. rewrite <- app_assoc. reflexivity.
Qed.

Lemma stays_ret {A} (a : A) : stays R (ret a).
Proof. intros st. apply R_refl. Qed.

Lemma stays_bind {A B} (c : M A) (k : A → M B) :
  stays R c → (∀ a, stays R (k a)) → stays R (bind c k).
Proof.
  intros Hc Hk st. unfold bind. specialize (Hc st).
  destruct (c st) as [a st1]. eapply R_trans; [exact Hc|]. apply Hk.
Qed.

Lemma stays_andThen (c k : M (option error)) :
  stays R c → stays R k → stays R (c ;;; k).
Proof.
  intros Hc Hk st. unfold andThen. specialize (Hc st).
  destruct (c st) as [[e|] st1]; [exact Hc|].
  eapply R_trans; [exact Hc|]. apply Hk.
Qed.

(** A step whose argument is read from the state. *)
Lemma stays_reading {A B} (f : state → B) (c : B → M A) :
  (∀ b, stays R (c b)) → stays R (λ st, c (f st) st).
Proof. intros H st. apply H. Qed.

Lemma stays_if {A} (b : state → bool) (c1 c2 : M A) :
  stays R c1 → stays R c2 → stays R (λ st, if b st then c1 st else c2 st).
Proof. intros H1 H2 st. destruct (b st); [apply H1 | apply H2]. Qed.

Lemma stays_call e : allowed e → stays R (call W e).
Proof. intros H st. apply R_log, H. Qed.

Lemma stays_emit e : allowed e → stays R (emit e).
Proof. intros H st. apply R_log, H. Qed.

Lemma stays_updateOk g : touched g → stays R (updateOk g).
Proof. intros H st. apply R_mig, H. Qed.

Lemma stays_checkAbort : allowed AbortLoad → stays R (checkAbort W).
Proof. intros H st. apply R_log, H. Qed.

Lemma stays_lockAppForMigration :
  (∀ a, allowed (LockApp a)) →
  (∀ l, touched (λ m, set_recovery (set_appLocked true) (set_appLock l m))) →
  stays R (lockAppForMigration W).
Proof.
  intros He Hg st. unfold lockAppForMigration.
  destruct (gqlLockApp W (log st)) as [e|l]; simpl.
  - apply (R_log st), He.
  - apply R_trans with (logged (LockApp (AppName (appConfig (mig st)))) st);
      [apply R_log, He|].
    exact (R_mig (logged (LockApp (AppName (appConfig (mig st)))) st) _ (Hg l)).
Qed.

Lemma stays_createRelease :
  (∀ a i, allowed (MigrateMachinesCreateRelease a i)) →
  (∀ id v, touched (set_release id v)) →
  stays R (createRelease W).
Proof.
  intros He Hg st. unfold createRelease.
  destruct (gqlCreateRelease W (log st)) as [e|[id v]]; simpl.
  - apply (R_log st), He.
  - eapply R_trans; [apply (R_log st), He|].
    exact (R_mig (logged (MigrateMachinesCreateRelease (AppName (appConfig (mig st)))
                            (img (mig st))) st) _ (Hg id v)).
Qed.

Lemma stays_waitForAllocsZero_loop polls :
  allowed Sleep → (∀ n, allowed (GetAllocations n)) →
  stays R (waitForAllocsZero_loop W polls).
Proof.
  intros Hs Hg. induction polls as [|polls IH]; intros st; simpl; [apply R_refl|].
  destruct (deadlineFirst W (log st)); simpl; [apply R_refl|].
  assert (R st {| log := (log st ++ [Sleep]) ++
                         [GetAllocations (ac_Name (appCompact (mig st)))];
                  mig := mig st |}) as Hstep.
  { apply R_trans with (logged Sleep st); [auto|]. apply (R_log (logged Sleep st)), Hg. }
  destruct (apiGetAllocations W (log st ++ [Sleep])) as [e|[|a l]]; simpl;
    [exact Hstep | exact Hstep |].
  eapply R_trans; [exact Hstep | apply IH].
Qed.

Lemma stays_scaleNomadToZero :
  (∀ a c l, allowed (SetNomadVMCount a c l)) →
  allowed Sleep → (∀ n, allowed (GetAllocations n)) →
  touched (set_recovery (set_scaledToZero true)) →
  stays R (scaleNomadToZero W).
Proof.
  intros Hc Hs Hg Hu. unfold scaleNomadToZero.
  apply stays_andThen; [|apply stays_andThen].
  - intros st. destruct (0 <? _); [apply stays_call, Hc | apply R_refl].
  - apply stays_waitForAllocsZero_loop; assumption.
  - apply stays_updateOk, Hu.
Qed.

Lemma stays_updateAppPlatformVersion platform :
  (∀ a l, allowed (SetPlatformVersion a platform l)) →
  touched (set_recovery (set_platformVersion platform)) →
  stays R (updateAppPlatformVersion W platform).
Proof.
  intros He Hu. unfold updateAppPlatformVersion.
  apply stays_andThen; [|apply stays_updateOk, Hu].
  intros st. apply stays_call, He.
Qed.

Lemma stays_launchAll inputs created :
  (∀ i, allowed (Launch i)) → allowed ListActive →
  stays R (launchAll W inputs created).
Proof.
  intros Hl Ha. revert created.
  induction inputs as [|i rest IH]; intros created st; simpl; [apply R_refl|].
  pose proof (R_log2 st (Launch i) ListActive (Hl i) Ha) as Hstep.
  destruct (flapsLaunch W (log st) i) as [e|mach]; simpl; [exact Hstep|].
  eapply R_trans; [exact Hstep | apply IH].
Qed.

Lemma stays_createMachines :
  (∀ i, allowed (Launch i)) → allowed ListActive →
  (∀ l, touched (set_newMachines l)) →
  (∀ l, touched (set_recovery (set_machinesCreated l))) →
  stays R (createMachines W).
Proof.
  intros Hl Ha Hn Hc st. unfold createMachines.
  pose proof (stays_launchAll (newMachinesInput (mig st)) [] Hl Ha st) as Hrun.
  destruct (launchAll W (newMachinesInput (mig st)) [] st) as [[err created] st1].
  simpl in *. eapply R_trans; [exact Hrun|].
  destruct err as [e|].
  - exact (R_mig st1 _ (Hc created)).
  - apply R_trans with (changed (set_newMachines created) st1); [apply R_mig, Hn|].
    exact (R_mig (changed (set_newMachines created) st1) _ (Hc created)).
Qed.

Lemma stays_unlockApp :
  (∀ a l, allowed (UnlockApp a l)) →
  touched (set_recovery (set_appLocked false)) →
  stays R (unlockApp W).
Proof.
  intros He Hu. unfold unlockApp.
  apply stays_andThen; [|apply stays_updateOk, Hu].
  intros st. apply stays_call, He.
Qed.

Lemma stays_deployApp :
  (∀ n, allowed (NewMachineDeployment n)) → (∀ n, allowed (DeployMachinesApp n)) →
  stays R (deployApp W).
Proof.
  intros Hn Hd. unfold deployApp. apply stays_andThen.
  - intros st. apply stays_call, Hn.
  - apply stays_bind; [|intros; apply stays_ret]. intros st. apply stays_call, Hd.
Qed.

Lemma stays_Migrate_afterLock :
  allowed AbortLoad →
  (∀ a c l, allowed (SetNomadVMCount a c l)) →
  allowed Sleep → (∀ n, allowed (GetAllocations n)) →
  (∀ a p l, allowed (SetPlatformVersion a p l)) →
  (∀ a i, allowed (MigrateMachinesCreateRelease a i)) →
  (∀ i, allowed (Launch i)) → allowed ListActive →
  touched (set_recovery (set_scaledToZero true)) →
  (∀ p, touched (set_recovery (set_platformVersion p))) →
  (∀ id v, touched (set_release id v)) →
  (∀ l, touched (set_newMachines l)) →
  (∀ l, touched (set_recovery (set_machinesCreated l))) →
  stays R (Migrate_afterLock W).
Proof.
  intros. unfold Migrate_afterLock.
  repeat first [ apply stays_checkAbort | apply stays_updateAppPlatformVersion
               | apply stays_createRelease | apply stays_createMachines
               | apply stays_andThen ]; auto.
  intros st. destruct (canAvoidDowntime (mig st)); [apply R_refl|].
  apply stays_scaleNomadToZero; auto.
Qed.

Lemma stays_Migrate_afterDeploy :
  allowed AbortLoad →
  (∀ a c l, allowed (SetNomadVMCount a c l)) →
  allowed Sleep → (∀ n, allowed (GetAllocations n)) →
  (∀ a p l, allowed (SetPlatformVersion a p l)) →
  touched (set_recovery (set_scaledToZero true)) →
  (∀ p, touched (set_recovery (set_platformVersion p))) →
  stays R (Migrate_afterDeploy W).
Proof.
  intros. unfold Migrate_afterDeploy.
  repeat first [ apply stays_checkAbort | apply stays_updateAppPlatformVersion
               | apply stays_andThen ]; auto.
  intros st. destruct (canAvoidDowntime (mig st)); [|apply R_refl].
  apply stays_andThen; [apply stays_scaleNomadToZero | apply stays_checkAbort]; auto.
Qed.

End Frame.

(** *** Two preorders *)

Lemma grows_refl p st : grows p st st.
Proof. exists []. rewrite app_nil_r. auto. Qed.

Lemma grows_trans p a b c : grows p a b → grows p b c → grows p a c.
Proof.
  intros (n1 & H1 & P1) (n2 & H2 & P2). exists (n1 ++ n2).
  rewrite H2, H1, <- app_assoc, forallb_app, P1, P2. auto.
Qed.

Lemma grows_log p st e : p e = true → grows p st (logged e st).
Proof. intros H. exists [e]. simpl. rewrite H. auto. Qed.

Lemma grows_mig p st (g : v2PlatformMigrator → v2PlatformMigrator) :
  True → grows p st (changed g st).
Proof. intros _. exists []. simpl. rewrite app_nil_r. auto. Qed.

Lemma keeps_refl {B} (f : v2PlatformMigrator → B) st : keeps f st st.
Proof. reflexivity. Qed.

Lemma keeps_trans {B} (f : v2PlatformMigrator → B) a b c :
  keeps f a b → keeps f b c → keeps f a c.
Proof. unfold keeps. congruence. Qed.

Lemma keeps_log {B} (f : v2PlatformMigrator → B) st e : True → keeps f st (logged e st).
Proof. reflexivity. Qed.

Lemma keeps_mig {B} (f : v2PlatformMigrator → B) st g :
  (∀ m, f (g m) = f m) → keeps f st (changed g st).
Proof. intros H. apply H. Qed.

(** Decompose a run of steps along its sequencing; [Hr], [Ht], [Hl] and [Hm]
    are the four closure properties of the preorder. *)
Ltac frame Hr Ht Hl Hm :=
  repeat first
    [ exact Hr | exact Ht | exact Hl | exact Hm
    | eapply stays_checkAbort
    | eapply stays_lockAppForMigration
    | eapply stays_unlockApp
    | eapply stays_deployApp
    | eapply stays_Migrate_afterLock
    | eapply stays_Migrate_afterDeploy
    | eapply stays_updateOk
    | eapply stays_andThen
    | eapply stays_bind
    | eapply stays_ret
    | (intros ?st; eapply stays_call) ].

(** Before the leases are requested, [Migrate] logs prelude events only. *)
Lemma Migrate_beforeLeases_prelude W st :
  grows isPrelude st (Migrate_beforeLeases W st).2.
Proof.
  revert st.
  pose proof (grows_refl isPrelude) as Hr. pose proof (grows_trans isPrelude) as Ht.
  pose proof (λ st e, grows_log isPrelude st e) as Hl.
  pose proof (λ st g, grows_mig isPrelude st g) as Hm.
  unfold Migrate_beforeLeases, Migrate_untilCreated.
  frame Hr Ht Hl Hm; intros; done.
Qed.

(** After the cutover trigger has returned the log only grows. *)
Lemma Migrate_afterDeploy_grows W st :
  grows (λ _, true) st (Migrate_afterDeploy W st).2.
Proof.
  revert st.
  pose proof (grows_refl (λ _, true)) as Hr. pose proof (grows_trans (λ _, true)) as Ht.
  pose proof (λ st e, grows_log (λ _, true) st e) as Hl.
  pose proof (λ st g, grows_mig (λ _, true) st g) as Hm.
  frame Hr Ht Hl Hm; intros; done.
Qed.

(** No step before the configuration is saved sets the point-of-no-return
    flag. *)
Lemma Migrate_beforeLeases_keeps_flag W st :
  keeps pastNoReturn st (Migrate_beforeLeases W st).2.
Proof.
  revert st.
  pose proof (keeps_refl pastNoReturn) as Hr. pose proof (keeps_trans pastNoReturn) as Ht.
  pose proof (λ st e, keeps_log pastNoReturn st e) as Hl.
  pose proof (λ st g, keeps_mig pastNoReturn st g) as Hm.
  unfold Migrate_beforeLeases, Migrate_untilCreated.
  frame Hr Ht Hl Hm; intros; done.
Qed.


(** Once the lock is taken, nothing up to the return of [createMachines]
    gives it back. *)
Lemma Migrate_afterLock_keeps_lock W st :
  keeps lockHeld st (Migrate_afterLock W st).2.
Proof.
  revert st.
  pose proof (keeps_refl lockHeld) as Hr. pose proof (keeps_trans lockHeld) as Ht.
  pose proof (λ st e, keeps_log lockHeld st e) as Hl.
  pose proof (λ st g, keeps_mig lockHeld st g) as Hm.
  frame Hr Ht Hl Hm; intros; done.
Qed.

(** ** Runs of Migrate *)

Lemma Migrate_deferred_None W err st st' :
  Migrate_deferred W err st = (None, st') → err = None ∧ st' = st.
Proof.
  destruct err as [e|]; simpl.
  - destruct (onlyPromptToConfigSave (recovery (mig st))); [discriminate|].
    unfold bind, ret. destruct (rollback W st) as [[re|] st1]; simpl; discriminate.
  - unfold ret. intros H. inversion H. auto.
Qed.

(** A successful run is a successful run of the steps, and the leases are
    released once more on return. *)
Lemma Migrate_None W st st' :
  Migrate W st = (None, st') →
  ∃ st1 st2 st3,
    Migrate_beforeLeases W (changed entry st) = (None, st1)
    ∧ Migrate_cutover W st1 = (None, st2)
    ∧ Migrate_saveConfig W st2 = (None, st3)
    ∧ st' = logged (ReleaseLeases (newMachines (mig st3))) st3.
Proof.
  unfold Migrate, bind, update. fold (changed entry st).
  destruct (Migrate_steps W (changed entry st)) as [err s] eqn:S. intros H.
  apply Migrate_deferred_None in H as [-> ->].
  unfold Migrate_steps in S. apply andThen_None in S as (st1 & H1 & S).
  unfold bind, ret in S.
  destruct (Migrate_withLeases W st1) as [err2 sb] eqn:L.
  unfold releaseLeases, call in S. inversion S; subst; clear S.
  unfold Migrate_withLeases in L. apply andThen_None in L as (st2 & H2 & H3).
  exists st1, st2, sb. auto.
Qed.

(** A successful run of the cutover logs the cutover segment first. *)
Lemma Migrate_cutover_None W st st' :
  Migrate_cutover W st = (None, st') →
  ∃ after, log st' = log st ++ cutoverSegment (mig st) ++ after.
Proof.
  unfold Migrate_cutover, acquireLeases, startBackgroundLeaseRefresh, unlockApp,
    releaseLeases, deployApp.
  unfold andThen at 1 2 3 4 5 6 7 8 9. unfold bind, ret, call, checkAbort, updateOk. simpl.
  repeat match goal with
         | |- context [status W ?t ?e] => destruct (status W t e); simpl; try discriminate
         | |- context [abortedLoad W ?t] => destruct (abortedLoad W t); simpl; try discriminate
         end.
  intros H.
  match type of H with
  | Migrate_afterDeploy W ?s = _ =>
      destruct (Migrate_afterDeploy_grows W s) as (after & Hlog & _)
  end.
  rewrite H in Hlog. simpl in Hlog. exists after. rewrite Hlog.
  unfold cutoverSegment. rewrite <- !app_assoc. reflexivity.
Qed.

(** C4, as amended: in every successful run the leases acquired in
    LeasesAcquired are held while the background refresh is started and the
    application lock is released, and they are released immediately before
    the cutover trigger is called, not after it returns; nothing before the
    acquisition touches a lease or triggers the cutover, and the leases are
    released once more when [Migrate] returns. *)
Theorem leases_released_before_cutover W st st' :
  Migrate W st = (None, st') →
  ∃ st1 before after machines,
    Migrate_beforeLeases W (changed entry st) = (None, st1)
    ∧ log st' = log st ++ before ++ cutoverSegment (mig st1) ++ after
                ++ [ReleaseLeases machines]
    ∧ forallb isPrelude before = true.
Proof.
  intros H. apply Migrate_None in H as (st1 & st2 & st3 & H1 & H2 & H3 & ->).
  destruct (Migrate_beforeLeases_prelude W (changed entry st)) as (before & Hb & Hp).
  rewrite H1 in Hb. simpl in Hb.
  apply Migrate_cutover_None in H2 as (after & Ha).
  unfold Migrate_saveConfig, andThen, updateOk, call in H3. simpl in H3.
  destruct (status W (log st2) _); [discriminate|]. inversion H3; subst; clear H3.
  exists st1, before, (after ++ [WriteToDisk (configPath (mig st2))]),
    (newMachines (mig st2)).
  split; [exact H1|]. split; [|exact Hp].
  simpl. rewrite Ha, Hb, <- !app_assoc. reflexivity.
Qed.

(** Instance: the run of the shop in which every call succeeds. *)
Lemma leases_released_before_cutover_witness :
  ∃ st1 before after machines,
    Migrate_beforeLeases Shop.calm (changed entry Shop.start) = (None, st1)
    ∧ log (Migrate Shop.calm Shop.start).2
      = log Shop.start ++ before ++ cutoverSegment (mig st1) ++ after
        ++ [ReleaseLeases machines]
    ∧ forallb isPrelude before = true.
Proof.
  apply (leases_released_before_cutover Shop.calm Shop.start).
  vm_compute. reflexivity.
Defined.

(** C4, as stated, fails: in the successful run of the shop the cutover
    trigger is called after the leases have been released. *)
Lemma cutover_runs_without_leases :
  (Migrate Shop.calm Shop.start).1 = None
  ∧ cutoverUnderLease false (log (Migrate Shop.calm Shop.start).2) = false.
Proof. split; vm_compute; reflexivity. Qed.









(** ** Aborting *)

Lemma waitForAllocsZero_loop_ignores_abort polls W flag st :
  waitForAllocsZero_loop (withAbort flag W) polls st = waitForAllocsZero_loop W polls st.
Proof.
  revert st. induction polls as [|polls IH]; intros st; simpl; [reflexivity|].
  destruct (deadlineFirst W (log st)); [reflexivity|].
  destruct (apiGetAllocations W (log st ++ [Sleep])) as [e|[|a l]]; auto.
Qed.

Lemma launchAll_ignores_abort inputs created W flag st :
  launchAll (withAbort flag W) inputs created st = launchAll W inputs created st.
Proof.
  revert created st. induction inputs as [|i l IH]; intros created st; simpl; [reflexivity|].
  destruct (flapsLaunch W (log st) i); auto.
Qed.

Lemma destroyAll_ignores_abort machines W flag st :
  destroyAll (withAbort flag W) machines st = destroyAll W machines st.
Proof.
  revert st. induction machines as [|x l IH]; intros st; [reflexivity|].
  change (destroyAll (withAbort flag W) (x :: l) st)
    with (match status W (log st) (Destroy (app_Name (appFull (mig st))) (ID x) true) with
          | Some e => (Some e, logged (Destroy (app_Name (appFull (mig st))) (ID x) true) st)
          | None => destroyAll (withAbort flag W) l
                      (logged (Destroy (app_Name (appFull (mig st))) (ID x) true) st)
          end).
  change (destroyAll W (x :: l) st)
    with (match status W (log st) (Destroy (app_Name (appFull (mig st))) (ID x) true) with
          | Some e => (Some e, logged (Destroy (app_Name (appFull (mig st))) (ID x) true) st)
          | None => destroyAll W l
                      (logged (Destroy (app_Name (appFull (mig st))) (ID x) true) st)
          end).
  destruct (status W (log st) _); [reflexivity | apply IH].
Qed.

(** No step reads the abort flag: only the checkpoints between the steps
    do. *)
Lemma steps_ignore_abort : Forall ignoresAbort migrationSteps.
Proof.
  unfold migrationSteps.
  repeat apply List.Forall_cons; try apply List.Forall_nil; intros W flag st.
  - reflexivity.
  - unfold scaleNomadToZero, waitForAllocsZero, andThen.
    destruct (0 <? _).
    + unfold call. simpl status. destruct (status W (log st) _); [reflexivity|].
      rewrite waitForAllocsZero_loop_ignores_abort. reflexivity.
    + rewrite waitForAllocsZero_loop_ignores_abort. reflexivity.
  - reflexivity.
  - reflexivity.
  - unfold createMachines. rewrite launchAll_ignores_abort. reflexivity.
  - reflexivity.
  - reflexivity.
  - reflexivity.
  - reflexivity.
  - reflexivity.
  - reflexivity.
  - reflexivity.
  - unfold rollback, rollback_body, bind. unfold andThen at 1 3.
    rewrite destroyAll_ignores_abort. reflexivity.
Qed.

Lemma createMachines_None W st st' :
  createMachines W st = (None, st') →
  machinesCreated (recovery (mig st')) = newMachines (mig st')
  ∧ length (machinesCreated (recovery (mig st'))) = length (newMachinesInput (mig st')).
Proof.
  unfold createMachines.
  destruct (launchAll W (newMachinesInput (mig st)) [] st) as [[err created] st1] eqn:L.
  destruct err as [e|]; intros H; inversion H; subst; clear H. simpl.
  apply launchAll_None in L as [Hlen Hmig]. rewrite Hmig. auto.
Qed.

(** After a successful run up to the return of [createMachines] the lock is
    held and every planned machine is recorded. *)
Lemma Migrate_untilCreated_None W st st1 :
  Migrate_untilCreated W st = (None, st1) →
  lockHeld (mig st1) = true
  ∧ length (machinesCreated (recovery (mig st1))) = length (newMachinesInput (mig st1)).
Proof.
  unfold Migrate_untilCreated. intros H.
  apply andThen_None in H as (sl & Hl & H). apply andThen_None in H as (sc & Hc & H).
  assert (lockHeld (mig sc) = true) as Hheld.
  { unfold lockAppForMigration in Hl. destruct (gqlLockApp W (log st)); [discriminate|].
    unfold checkAbort in Hc. inversion Hl; subst; clear Hl.
    inversion Hc; subst; clear Hc. reflexivity. }
  pose proof (Migrate_afterLock_keeps_lock W sc) as K. unfold keeps in K.
  rewrite H in K. simpl in K. split; [congruence|].
  unfold Migrate_afterLock in H.
  repeat (apply andThen_None in H as (? & _ & H)).
  apply createMachines_None in H as [_ Hlen]. exact Hlen.
Qed.

(** The body of [rollback]: destroy calls for a prefix of the recorded
    machines and, only when none of them failed, the calls that put the
    application back on nomad. *)
Lemma rollback_body_tail W st err st' :
  rollback_body W st = (err, st') →
  let recorded := machinesCreated (recovery (mig st)) in
  ∃ n resets,
    n ≤ length recorded
    ∧ log st' = log st ++ (destroyEvent (app_Name (appFull (mig st))) <$> take n recorded)
                  ++ resets
    ∧ forallb isReset resets = true
    ∧ ((destroyAll W recorded st).1 = None → n = length recorded)
    ∧ (n < length recorded → resets = [])
    ∧ ac_Name (appCompact (mig st')) = ac_Name (appCompact (mig st))
    ∧ AppName (appConfig (mig st')) = AppName (appConfig (mig st))
    ∧ appLock (mig st') = appLock (mig st)
    ∧ appLocked (recovery (mig st')) = appLocked (recovery (mig st)).
Proof.
  intros H recorded. subst recorded. unfold rollback_body in H.
  unfold andThen at 1 in H.
  destruct (destroyAll W (machinesCreated (recovery (mig st))) st) as [derr st1] eqn:D.
  destruct (destroyAll_prefix _ _ _ _ _ D) as (n & Hn & Hlog & Hmig & Hall).
  exists n. destruct derr as [e|].
  - inversion H; subst. exists []. rewrite app_nil_r, Hmig. auto 10.
  - specialize (Hall eq_refl).
    unfold updateAppPlatformVersion in H. unfold_steps. rewrite !Hmig in H.
    repeat match type of H with
           | context [if ?b then _ else _] => destruct b
           | context [match status W ?t ?e with _ => _ end] => destruct (status W t e)
           end; simpl in H; inversion H; subst; simpl;
      rewrite ?Hlog, ?Hmig, <- ?app_assoc; simpl;
      first [ exists []; rewrite app_nil_r; split; [exact Hn|]; split; [reflexivity|];
              split; [reflexivity|]; split; [auto|]; split; [intros; lia|]; by auto 10
            | eexists; split; [exact Hn|]; split; [reflexivity|];
              split; [reflexivity|]; split; [auto|]; split; [intros; lia|]; by auto 10 ].
Qed.

(** The deferred part of [rollback] when the lock is held: the unlock call
    comes first, and the recovery state ends unlocked exactly when that call
    is accepted. *)
Lemma rollback_deferred_locked W st :
  appLocked (recovery (mig st)) = true →
  let unlock := UnlockApp (AppName (appConfig (mig st))) (appLock (mig st)) in
  ∃ after,
    log (rollback_deferred W st).2 = log st ++ unlock :: after
    ∧ forallb isCleanup after = true
    ∧ ResumeApp (ac_Name (appCompact (mig st))) ∈ after
    ∧ (appLocked (recovery (mig (rollback_deferred W st).2)) = false
       ↔ status W (log st) unlock = None).
Proof.
  intros Hl unlock. subst unlock. unfold rollback_deferred, unlockApp. unfold_steps.
  rewrite Hl. simpl.
  destruct (status W (log st) (UnlockApp _ _)) as [e|]; simpl;
    match goal with
    | |- context [status W ?t (ResumeApp ?n)] =>
        destruct (status W t (ResumeApp n)) as [e'|]
    end; simpl;
    try destruct (contains _ _); simpl;
    rewrite <- ?app_assoc; simpl;
    (eexists; split; [reflexivity|]; split; [reflexivity|];
     split; [set_solver|]; split; congruence).
Qed.

Lemma rollback_run W st rerr st' :
  appLocked (recovery (mig st)) = true →
  rollback W st = (rerr, st') →
  let recorded := machinesCreated (recovery (mig st)) in
  let destroys n := destroyEvent (app_Name (appFull (mig st))) <$> take n recorded in
  let unlock := UnlockApp (AppName (appConfig (mig st))) (appLock (mig st)) in
  ∃ n resets after,
    n ≤ length recorded
    ∧ log st' = log st ++ destroys n ++ resets ++ unlock :: after
    ∧ forallb isReset resets = true
    ∧ forallb isCleanup after = true
    ∧ ResumeApp (ac_Name (appCompact (mig st))) ∈ after
    ∧ ((destroyAll W recorded st).1 = None → n = length recorded)
    ∧ (n < length recorded → resets = [])
    ∧ (appLocked (recovery (mig st')) = false
       ↔ status W (log st ++ destroys n ++ resets) unlock = None).
Proof.
  intros Hl H recorded destroys unlock. subst recorded destroys unlock.
  unfold rollback, bind, ret in H.
  destruct (rollback_body W st) as [berr sb] eqn:B.
  apply rollback_body_tail in B
    as (n & resets & Hn & Hlog & Hres & Hall & Hfew & Hn1 & Hn2 & Hk & Hlk).
  rewrite Hl in Hlk.
  destruct (rollback_deferred_locked W sb Hlk) as (after & Hlog' & Hclean & Hresume & Hiff).
  destruct (rollback_deferred W sb) as [u sd]. inversion H; subst; clear H. simpl in *.
  exists n, resets, after. rewrite Hn1, Hn2, Hk in *.
  split; [exact Hn|]. split; [rewrite Hlog', Hlog, <- !app_assoc; reflexivity|].
  split; [exact Hres|]. split; [exact Hclean|]. split; [exact Hresume|].
  split; [exact Hall|]. split; [exact Hfew|].
  rewrite Hlog in Hiff. exact Hiff.
Qed.

(** Up to the return of [createMachines], [Migrate] changes nothing of the
    plan and keeps the lock token it was given. *)
Lemma Migrate_afterLock_keeps {B} (f : v2PlatformMigrator → B) W st :
  (∀ g m, f (set_recovery g m) = f m) →
  (∀ id v m, f (set_release id v m) = f m) →
  (∀ l m, f (set_newMachines l m) = f m) →
  keeps f st (Migrate_afterLock W st).2.
Proof.
  intros H1 H2 H3. revert st.
  pose proof (keeps_refl f) as Hr. pose proof (keeps_trans f) as Ht.
  pose proof (λ st e, keeps_log f st e) as Hl.
  pose proof (λ st g, keeps_mig f st g) as Hm.
  frame Hr Ht Hl Hm; intros; cbv beta; intros;
    first [exact I | apply H1 | apply H2 | apply H3].
Qed.

Lemma Migrate_untilCreated_lock W st st1 :
  Migrate_untilCreated W st = (None, st1) →
  gqlLockApp W (log st) = inr (appLock (mig st1))
  ∧ planOf (mig st1) = planOf (mig st).
Proof.
  unfold Migrate_untilCreated. intros H.
  apply andThen_None in H as (sl & Hl & H). apply andThen_None in H as (sc & Hc & H).
  pose proof (Migrate_afterLock_keeps appLock W sc
                (λ _ _, eq_refl) (λ _ _ _, eq_refl) (λ _ _, eq_refl)) as Kl.
  pose proof (Migrate_afterLock_keeps planOf W sc
                (λ _ _, eq_refl) (λ _ _ _, eq_refl) (λ _ _, eq_refl)) as Kp.
  unfold keeps in Kl, Kp. rewrite H in Kl, Kp. simpl in Kl, Kp.
  unfold lockAppForMigration in Hl. destruct (gqlLockApp W (log st)) as [e|l]; [discriminate|].
  unfold checkAbort in Hc. inversion Hl; subst; clear Hl.
  inversion Hc; subst; clear Hc. simpl in *. rewrite Kl, Kp. split; reflexivity.
Qed.

(** C8, as amended.  No step of the migration reads the abort flag, so an
    abort never cuts a step short; it is seen at the checkpoints between
    steps.  When the flag is raised at the checkpoint between machine
    creation and lease acquisition, [Migrate] returns the aborted error and
    rolls back.  Its whole log is then: the prelude, which requests no lease;
    the destroy calls, in creation order, for the first [n] machines created;
    the calls that put the application back on nomad; the unlock call with the
    token that the lock call returned; and the resume call among the
    messages that follow.  Every created machine gets its destroy call when
    no destroy call fails; when the destroy calls stop early, nothing puts
    the application back on nomad; and the recovery state ends unlocked
    exactly when the unlock call is accepted. *)
Theorem abort_between_creation_and_leases W st st1 :
  pastNoReturn (mig st) = false →
  Migrate_untilCreated W (changed entry st) = (None, st1) →
  abortedLoad W (log st1) = true →
  let created := machinesCreated (recovery (mig st1)) in
  let destroys n := destroyEvent (app_Name (appFull (mig st))) <$> take n created in
  let final := (Migrate W st).2 in
  Forall ignoresAbort migrationSteps
  ∧ (Migrate W st).1 = Some abortedErr
  ∧ length created = length (newMachinesInput (mig st))
  ∧ ∃ lockId prelude n resets after,
      gqlLockApp W (log st) = inr lockId
      ∧ log st1 ++ [AbortLoad] = log st ++ prelude
      ∧ forallb isPrelude prelude = true
      ∧ n ≤ length created
      ∧ log final
        = log st ++ prelude ++ destroys n ++ resets
            ++ UnlockApp (AppName (appConfig (mig st))) lockId :: after
      ∧ forallb isReset resets = true
      ∧ forallb isCleanup after = true
      ∧ ResumeApp (ac_Name (appCompact (mig st))) ∈ after
      ∧ ((∀ t x, x ∈ created →
                 status W t (destroyEvent (app_Name (appFull (mig st))) x) = None) →
         n = length created)
      ∧ (n < length created → resets = [])
      ∧ (lockHeld (mig final) = false
         ↔ status W (log st ++ prelude ++ destroys n ++ resets)
             (UnlockApp (AppName (appConfig (mig st))) lockId) = None).
Proof.
  intros Hflag Hrun Habort created destroys final. subst created destroys final.
  split; [exact steps_ignore_abort|].
  destruct (Migrate_untilCreated_None _ _ _ Hrun) as [Hheld Hlen].
  destruct (Migrate_untilCreated_lock _ _ _ Hrun) as [Hlock Hplan].
  simpl in Hlock, Hplan.
  assert (appCompact (mig st1) = appCompact (mig st)
          ∧ appFull (mig st1) = appFull (mig st)
          ∧ appConfig (mig st1) = appConfig (mig st)
          ∧ newMachinesInput (mig st1) = newMachinesInput (mig st))
    as (Hac & Haf & Hcf & Hin).
  { unfold planOf in Hplan. inversion Hplan. auto. }
  assert (Migrate_beforeLeases W (changed entry st) = (Some abortedErr, logged AbortLoad st1))
    as Hb.
  { unfold Migrate_beforeLeases. rewrite (andThen_ok _ _ _ _ Hrun).
    unfold checkAbort. rewrite Habort. reflexivity. }
  assert (Migrate_steps W (changed entry st) = (Some abortedErr, logged AbortLoad st1)) as S.
  { unfold Migrate_steps. apply andThen_err. exact Hb. }
  destruct (Migrate_beforeLeases_prelude W (changed entry st)) as (prelude & Hpre & Hallp).
  rewrite Hb in Hpre. simpl in Hpre.
  assert (pastNoReturn (mig st1) = false) as Hf1.
  { pose proof (Migrate_beforeLeases_keeps_flag W (changed entry st)) as K.
    unfold keeps in K. rewrite Hb in K. simpl in K. rewrite K. exact Hflag. }
  unfold Migrate, bind, update. fold (changed entry st). rewrite S. simpl.
  unfold pastNoReturn in Hf1. rewrite Hf1. unfold bind, ret.
  pose proof (destroyAll_all_ok W (machinesCreated (recovery (mig st1)))
                (logged AbortLoad st1)) as Hok.
  destruct (rollback W (logged AbortLoad st1)) as [rerr sr] eqn:Rb.
  apply rollback_run in Rb
    as (n & resets & after & Hn & Hlog & Hres & Hclean & Hresume & Hall & Hfew & Hiff);
    [|exact Hheld].
  simpl in *. rewrite Hac, Haf, Hcf in *. rewrite Hpre in Hlog, Hiff.
  rewrite <- !app_assoc in Hlog. rewrite <- !app_assoc in Hiff.
  match goal with
  | |- context [let '(_, s2) := ?f sr in (?x, s2)] =>
      destruct (f sr) as [u sf] eqn:Hf
  end.
  assert (mig sf = mig sr ∧ ∃ extra, log sf = log sr ++ extra
                                      ∧ forallb isCleanup extra = true)
    as (Hm & extra & Hlg & Hcl).
  { destruct rerr; unfold emit in Hf; inversion Hf; subst; simpl.
    - split; [reflexivity|]. eexists. split; reflexivity.
    - split; [reflexivity|]. exists []. rewrite app_nil_r. auto. }
  simpl. split; [reflexivity|]. split; [congruence|].
  exists (appLock (mig st1)), prelude, n, resets, (after ++ extra).
  split; [exact Hlock|]. split; [exact Hpre|]. split; [exact Hallp|].
  split; [exact Hn|].
  split; [rewrite Hlg, Hlog, <- !app_assoc; reflexivity|].
  split; [exact Hres|].
  split; [rewrite forallb_app, Hclean, Hcl; reflexivity|].
  split; [apply elem_of_app; left; exact Hresume|].
  split; [intros Hnone; apply Hall, Hok, Hnone|].
  split; [exact Hfew|].
  unfold lockHeld. rewrite Hm. exact Hiff.
Qed.

(** Instance: the abort flag is raised while the third machine is created. *)
Lemma abort_between_creation_and_leases_witness :
  let W := Shop.abortAfterCreation in
  let st := Shop.start in
  let st1 := (Migrate_untilCreated W (changed entry st)).2 in
  let created := machinesCreated (recovery (mig st1)) in
  let destroys n := destroyEvent (app_Name (appFull (mig st))) <$> take n created in
  let final := (Migrate W st).2 in
  Forall ignoresAbort migrationSteps
  ∧ (Migrate W st).1 = Some abortedErr
  ∧ length created = length (newMachinesInput (mig st))
  ∧ ∃ lockId prelude n resets after,
      gqlLockApp W (log st) = inr lockId
      ∧ log st1 ++ [AbortLoad] = log st ++ prelude
      ∧ forallb isPrelude prelude = true
      ∧ n ≤ length created
      ∧ log final
        = log st ++ prelude ++ destroys n ++ resets
            ++ UnlockApp (AppName (appConfig (mig st))) lockId :: after
      ∧ forallb isReset resets = true
      ∧ forallb isCleanup after = true
      ∧ ResumeApp (ac_Name (appCompact (mig st))) ∈ after
      ∧ ((∀ t x, x ∈ created →
                 status W t (destroyEvent (app_Name (appFull (mig st))) x) = None) →
         n = length created)
      ∧ (n < length created → resets = [])
      ∧ (lockHeld (mig final) = false
         ↔ status W (log st ++ prelude ++ destroys n ++ resets)
             (UnlockApp (AppName (appConfig (mig st))) lockId) = None).
Proof.
  apply (abort_between_creation_and_leases Shop.abortAfterCreation Shop.start
           (Migrate_untilCreated Shop.abortAfterCreation (changed entry Shop.start)).2).
  - reflexivity.
  - vm_compute. reflexivity.
  - vm_compute. reflexivity.
Defined.

(** C8, as stated, fails: the abort flag is raised at the same checkpoint
    and every attempt to destroy m1 fails.  [Migrate] returns the aborted
    error, m1 is the only machine that gets a destroy call, m2 and m3 stay,
    and the application is left detached. *)
Lemma abort_rollback_leaves_machines :
  let W := Shop.abortThenBusy in
  let final := (Migrate W Shop.start).2 in
  (Migrate W Shop.start).1 = Some abortedErr
  ∧ machinesCreated (recovery (mig final)) = [Shop.m1; Shop.m2; Shop.m3]
  ∧ destroyed (log final) = ["m1"]
  ∧ platformVersion (recovery (mig final)) = "detached".
Proof. repeat split; vm_compute; reflexivity. Qed.

(** ** Recording irreversible steps *)

(** [lockAppForMigration] records the lock in the same step that takes it. *)
Lemma lockAppForMigration_records W st st' :
  lockAppForMigration W st = (None, st') →
  appLocked (recovery (mig st')) = true
  ∧ gqlLockApp W (log st) = inr (appLock (mig st')).
Proof.
  unfold lockAppForMigration. destruct (gqlLockApp W (log st)) as [e|l]; [discriminate|].
  intros H. inversion H; subst; clear H. split; reflexivity.
Qed.

(** The polling loop leaves the migrator alone. *)
Lemma waitForAllocsZero_loop_mig W polls st :
  mig (waitForAllocsZero_loop W polls st).2 = mig st.
Proof.
  revert st.
  apply (stays_waitForAllocsZero_loop W (keeps (λ m, m)) (λ _, True)
           (keeps_refl _) (keeps_trans _) (λ st e, keeps_log _ st e)); done.
Qed.

(** Every error return of [scaleNomadToZero] leaves [scaledToZero] as it
    was, also the return after an accepted scale request. *)
Lemma scaleNomadToZero_error_leaves_flag W st e st' :
  scaleNomadToZero W st = (Some e, st') →
  scaledToZero (recovery (mig st')) = scaledToZero (recovery (mig st)).
Proof.
  unfold scaleNomadToZero, waitForAllocsZero. generalize maxPolls. intros polls H.
  apply andThen_Some in H as [H | (s1 & H1 & H)].
  - destruct (0 <? _); [|discriminate]. unfold call in H. inversion H. reflexivity.
  - assert (mig s1 = mig st) as Hs1.
    { destruct (0 <? _); unfold call in H1; inversion H1; reflexivity. }
    apply andThen_Some in H as [H | (s2 & _ & H)]; [|discriminate].
    pose proof (waitForAllocsZero_loop_mig W polls s1) as Hw.
    rewrite H in Hw. simpl in Hw. congruence.
Qed.

(** C6: the code at the failing input.  In the world where the scale request
    is accepted and the next poll of the legacy instances fails,
    [scaleNomadToZero] returns the error with the scale request sent and
    [scaledToZero] still unset, and the rollback of the whole run destroys
    the new machines without ever restoring the instance counts. *)
Theorem scaleNomadToZero_forgets_scale_request :
  let W := Shop.pollsFail in
  let locked := (lockAppForMigration W Shop.start).2 in
  let failed := scaleNomadToZero W locked in
  failed.1 = Some (ErrNew "connection reset")
  ∧ scaleRequests (log failed.2) = [[("worker", 0); ("web", 0)]]
  ∧ scaledToZero (recovery (mig failed.2)) = false
  ∧ (Migrate W Shop.start).1 = Some (ErrNew "connection reset")
  ∧ scaleRequests (log (Migrate W Shop.start).2) = [[("worker", 0); ("web", 0)]]
  ∧ destroyed (log (Migrate W Shop.start).2) = ["m1"; "m2"; "m3"].
Proof. repeat split; vm_compute; reflexivity. Qed.

(** ** Polling *)

(** C9, as amended: an error of the poll of [waitForAllocsZero] is returned
    at once and never retried.  In [WaitForStartOrStop] an error of the wait
    call is returned at once when the wait context is cancelled (the error
    itself), when it is past its deadline (wrapped as a timeout), or when the
    error is a flaps error with status 400 (wrapped as a failed wait); any
    other error is followed by a sleep and another wait call.  Each part is
    stated at an arbitrary log, hence for every iteration of its loop. *)
Theorem poll_error_handling W :
  (∀ polls st e,
     deadlineFirst W (log st) = false →
     apiGetAllocations W (log st ++ [Sleep]) = inl e →
     waitForAllocsZero_loop W (S polls) st
     = (Some e,
        {| log := (log st ++ [Sleep]) ++ [GetAllocations (ac_Name (appCompact (mig st)))];
           mig := mig st |}))
  ∧ (∀ fuel machine state t e',
       status W t (Wait (ID machine) state) = Some e' →
       let t' := t ++ [Wait (ID machine) state] in
       (waitCtxErr W t' = CtxCanceled →
        waitLoop W (S fuel) machine state t = (Some (Some e'), t'))
       ∧ (waitCtxErr W t' = CtxDeadlineExceeded →
          waitLoop W (S fuel) machine state t
          = (Some (Some (ErrWrap ("timeout reached waiting for machine to "
                                    +:+ state +:+ " ") e')), t'))
       ∧ (waitCtxErr W t' = CtxLive → asFlapsError e' = Some 400 →
          waitLoop W (S fuel) machine state t
          = (Some (Some (ErrWrap "failed waiting for machine: " e')), t'))
       ∧ (waitCtxErr W t' = CtxLive → asFlapsError e' ≠ Some 400 →
          waitLoop W (S fuel) machine state t
          = waitLoop W fuel machine state (t' ++ [Sleep]))).
Proof.
  split.
  - intros polls st e Hd Hg. simpl. rewrite Hd, Hg. reflexivity.
  - intros fuel machine state t e' Hw t'. subst t'.
    split; [|split; [|split]].
    + intros Hc. simpl. rewrite Hw, Hc. reflexivity.
    + intros Hc. simpl. rewrite Hw, Hc. reflexivity.
    + intros Hc H400. simpl. rewrite Hw, Hc.
      rewrite bool_decide_eq_true_2 by exact H400. reflexivity.
    + intros Hc Hno. simpl. rewrite Hw, Hc.
      rewrite bool_decide_eq_false_2 by exact Hno. reflexivity.
Qed.

(** Instances: the poll after the scale request fails; a wait on m1 fails
    while the context is cancelled, while it is past its deadline, and with
    status 400; and a wait answered 500 under a live context is retried. *)
Lemma poll_error_handling_witness :
  waitForAllocsZero_loop Shop.pollsFail 1 Shop.scaled
  = (Some (ErrNew "connection reset"),
     {| log := (log Shop.scaled ++ [Sleep])
               ++ [GetAllocations (ac_Name (appCompact (mig Shop.scaled)))];
        mig := mig Shop.scaled |})
  ∧ waitLoop Shop.waitCancelled 1 Shop.m1 "started" []
    = (Some (Some (ErrFlaps 500 "internal error")), [Wait "m1" "started"])
  ∧ waitLoop Shop.waitTimedOut 1 Shop.m1 "started" []
    = (Some (Some (ErrWrap "timeout reached waiting for machine to started "
                     (ErrFlaps 500 "internal error"))), [Wait "m1" "started"])
  ∧ waitLoop Shop.waitRejected 1 Shop.m1 "started" []
    = (Some (Some (ErrWrap "failed waiting for machine: " (ErrFlaps 400 "bad request"))),
       [Wait "m1" "started"])
  ∧ waitLoop Shop.flakyWait 2 Shop.m1 "started" []
    = waitLoop Shop.flakyWait 1 Shop.m1 "started" [Wait "m1" "started"; Sleep].
Proof.
  split; [|split; [|split; [|split]]].
  - apply (proj1 (poll_error_handling Shop.pollsFail) 0 Shop.scaled); vm_compute; reflexivity.
  - apply (proj2 (poll_error_handling Shop.waitCancelled) 0 Shop.m1 "started" []
             (ErrFlaps 500 "internal error")); vm_compute; reflexivity.
  - apply (proj2 (poll_error_handling Shop.waitTimedOut) 0 Shop.m1 "started" []
             (ErrFlaps 500 "internal error")); vm_compute; reflexivity.
  - apply (proj2 (poll_error_handling Shop.waitRejected) 0 Shop.m1 "started" []
             (ErrFlaps 400 "bad request")); vm_compute; reflexivity.
  - apply (proj2 (poll_error_handling Shop.flakyWait) 1 Shop.m1 "started" []
             (ErrFlaps 500 "internal error")); vm_compute; try reflexivity; discriminate.
Defined.

(** C9, as stated, fails: the first wait call on m1 returns an error, which
    is neither a 400 nor due to the context; [WaitForStartOrStop] sleeps,
    waits again and returns [nil]. *)
Lemma WaitForStartOrStop_retries_error :
  status Shop.flakyWait [] (Wait "m1" "started") = Some (ErrFlaps 500 "internal error")
  ∧ WaitForStartOrStop Shop.flakyWait 2 Shop.m1 "start" []
    = (Some None, [Wait "m1" "started"; Sleep; Wait "m1" "started"]).
Proof. split; vm_compute; reflexivity. Qed.

(** The wait loop only waits on the state it is given, and sleeps. *)
Lemma waitLoop_log W fuel machine state t :
  ∃ new, (waitLoop W fuel machine state t).2 = t ++ new
         ∧ Forall (λ e, e = Wait (ID machine) state ∨ e = Sleep) new
         ∧ (0 < fuel → head new = Some (Wait (ID machine) state)).
Proof.
  revert t. induction fuel as [|fuel IH]; intros t; simpl.
  - exists []. rewrite app_nil_r. split; [reflexivity|]. split; [constructor | lia].
  - assert (∃ new, t ++ [Wait (ID machine) state] = t ++ new
                   ∧ Forall (λ e, e = Wait (ID machine) state ∨ e = Sleep) new
                   ∧ (0 < S fuel → head new = Some (Wait (ID machine) state))) as Hone.
    { eexists. split; [reflexivity|]. split; [|reflexivity].
      apply List.Forall_cons; [left; reflexivity | apply List.Forall_nil]. }
    destruct (status W t (Wait (ID machine) state)) as [err|]; [|exact Hone].
    destruct (waitCtxErr W (t ++ [Wait (ID machine) state])); try exact Hone.
    destruct (bool_decide (asFlapsError err = Some 400)); [exact Hone|].
    destruct (IH ((t ++ [Wait (ID machine) state]) ++ [Sleep])) as (new & Hlog & Hall & _).
    exists ([Wait (ID machine) state; Sleep] ++ new). rewrite Hlog, <- !app_assoc.
    split; [reflexivity|]. split; [|reflexivity].
    apply List.Forall_cons; [left; reflexivity|].
    apply List.Forall_cons; [right; reflexivity | exact Hall].
Qed.

(** C10: for an action other than start and stop, [WaitForStartOrStop]
    returns its error with nothing logged, for any fuel, so no wait call is
    issued; for start it runs the wait loop on the state started and for
    stop on stopped, and the loop logs nothing but wait calls on that state
    and sleeps, starting with a wait call. *)
Theorem WaitForStartOrStop_action W fuel machine t :
  (∀ action, action ≠ "start" → action ≠ "stop" →
             WaitForStartOrStop W fuel machine action t = (Some (Some actionErr), t))
  ∧ WaitForStartOrStop W fuel machine "start" t = waitLoop W fuel machine "started" t
  ∧ WaitForStartOrStop W fuel machine "stop" t = waitLoop W fuel machine "stopped" t
  ∧ ∀ state, ∃ new,
      (waitLoop W fuel machine state t).2 = t ++ new
      ∧ Forall (λ e, e = Wait (ID machine) state ∨ e = Sleep) new
      ∧ (0 < fuel → head new = Some (Wait (ID machine) state)).
Proof.
  split; [|split; [|split]].
  - intros action H1 H2. unfold WaitForStartOrStop.
    rewrite !bool_decide_eq_false_2 by assumption. reflexivity.
  - reflexivity.
  - reflexivity.
  - intros state. apply waitLoop_log.
Qed.

(** * Further properties *)

(** ** The plan *)

(** One alloc resolves to a launch input unless its process group is
    unknown; it never returns an error. *)
Lemma resolveMachineFromAlloc_known m alloc processConfig :
  processConfigs m !! TaskName alloc = Some processConfig →
  ∃ input,
    resolveMachineFromAlloc m alloc = Built input
    ∧ li_AppID input = app_Name (appFull m)
    ∧ li_Region input = Region alloc
    ∧ mc_Image (li_Config input) = img m
    ∧ mc_Services (li_Config input) = Services processConfig
    ∧ mc_Metadata (li_Config input) !! MachineConfigMetadataKeyFlyProcessGroup
      = Some (TaskName alloc)
    ∧ (PrimaryRegion (appConfig m) ≠ "" →
       mc_Env (li_Config input) !! "PRIMARY_REGION" = Some (PrimaryRegion (appConfig m))).
Proof.
  intros Hk. unfold resolveMachineFromAlloc. rewrite Hk. eexists.
  split; [reflexivity|]. simpl.
  repeat split; try reflexivity.
  - apply lookup_insert_eq.
  - intros Hr. rewrite bool_decide_eq_true_2 by exact Hr. apply lookup_insert_eq.
Qed.

Lemma resolveMachinesFromAllocs_loop_known m allocs res :
  (∀ a, a ∈ allocs → is_Some (processConfigs m !! TaskName a)) →
  ∃ inputs,
    resolveMachinesFromAllocs_loop m allocs res = Built (res ++ inputs)
    ∧ Forall2 (plannedFor m) allocs inputs.
Proof.
  revert res. induction allocs as [|a l IH]; intros res Hk; simpl.
  - exists []. rewrite app_nil_r. split; [reflexivity | constructor].
  - assert (is_Some (processConfigs m !! TaskName a)) as [pc Hpc] by (apply Hk; left).
    destruct (resolveMachineFromAlloc_known m a pc Hpc)
      as (input & Hr & _ & Hreg & Himg & _ & Hgrp & Henv).
    rewrite Hr. destruct (IH (res ++ [input])) as (inputs & Hl & Hall).
    { intros b Hb. apply Hk. right. exact Hb. }
    exists (input :: inputs). rewrite Hl, <- app_assoc. split; [reflexivity|].
    constructor; [|exact Hall]. unfold plannedFor. auto.
Qed.

Lemma resolveMachinesFromAllocs_loop_unknown m allocs res a :
  a ∈ allocs → processConfigs m !! TaskName a = None →
  resolveMachinesFromAllocs_loop m allocs res = Panicked nilDereference.
Proof.
  revert res. induction allocs as [|b l IH]; intros res Ha Hn; [inversion Ha|].
  simpl. destruct (processConfigs m !! TaskName b) as [pc|] eqn:Hb.
  - destruct (resolveMachineFromAlloc_known m b pc Hb) as (input & Hr & _). rewrite Hr.
    apply IH; [|exact Hn]. apply elem_of_cons in Ha as [->|Ha]; [congruence | exact Ha].
  - unfold resolveMachineFromAlloc. rewrite Hb. reflexivity.
Qed.

(** X1: when every legacy instance has a known process group, the plan has
    exactly one launch input per instance, in the order of the instances;
    each input carries the region of its instance, the image of the
    application, the task name as process-group metadata, and the primary
    region in its environment when one is set. *)
Theorem plan_one_input_per_alloc m :
  (∀ a, a ∈ oldAllocs m → is_Some (processConfigs m !! TaskName a)) →
  ∃ inputs,
    resolveMachinesFromAllocs m = Built inputs
    ∧ length inputs = length (oldAllocs m)
    ∧ Forall2 (plannedFor m) (oldAllocs m) inputs.
Proof.
  intros Hk. unfold resolveMachinesFromAllocs.
  destruct (resolveMachinesFromAllocs_loop_known m (oldAllocs m) [] Hk) as (inputs & Hr & Hall).
  exists inputs. split; [exact Hr|]. split; [|exact Hall].
  symmetry. exact (Forall2_length _ _ _ Hall).
Qed.

(** Instance: the three instances of the shop. *)
Lemma plan_one_input_per_alloc_witness :
  ∃ inputs,
    resolveMachinesFromAllocs Shop.migrator = Built inputs
    ∧ length inputs = length (oldAllocs Shop.migrator)
    ∧ Forall2 (plannedFor Shop.migrator) (oldAllocs Shop.migrator) inputs.
Proof.
  apply (plan_one_input_per_alloc Shop.migrator).
  intros a Ha. vm_compute in Ha.
  repeat (apply elem_of_cons in Ha as [->|Ha]; [vm_compute; eexists; reflexivity|]).
  inversion Ha.
Defined.

(** X2: planning ends in a nil-pointer panic exactly when some legacy
    instance has a process group without configuration, and it never returns
    an error. *)
Theorem plan_panics_iff_unknown_group m :
  ((∃ what, resolveMachinesFromAllocs m = Panicked what)
   ↔ ∃ a, a ∈ oldAllocs m ∧ processConfigs m !! TaskName a = None)
  ∧ ∀ err, resolveMachinesFromAllocs m ≠ Failed err.
Proof.
  unfold resolveMachinesFromAllocs.
  destruct (decide (Forall (λ a, is_Some (processConfigs m !! TaskName a)) (oldAllocs m)))
    as [Hall|Hnot].
  - rewrite Forall_forall in Hall.
    destruct (resolveMachinesFromAllocs_loop_known m (oldAllocs m) [] Hall) as (inputs & Hr & _).
    rewrite Hr. split; [split|].
    + intros [what H]. discriminate.
    + intros (a & Ha & Hn). destruct (Hall a Ha) as [pc Hpc]. congruence.
    + intros err. discriminate.
  - apply not_Forall_Exists in Hnot; [|apply _].
    apply Exists_exists in Hnot as (a & Ha & Hn).
    assert (processConfigs m !! TaskName a = None) as Hnone.
    { simpl in Hn. destruct (processConfigs m !! TaskName a) as [pc|]; [|reflexivity].
      exfalso. apply Hn. exists pc. reflexivity. }
    rewrite (resolveMachinesFromAllocs_loop_unknown m _ [] a Ha Hnone).
    split; [split|].
    + intros _. eauto.
    + intros _. eauto.
    + intros err. discriminate.
Qed.

(** ** Validation *)

Lemma find_None_iff {A} (f : A → bool) (l : list A) :
  List.find f l = None ↔ ∀ x, x ∈ l → f x = false.
Proof.
  split.
  - intros H x Hx. apply (List.find_none f l H). apply list_elem_of_In. exact Hx.
  - intros H. destruct (List.find f l) as [x|] eqn:F; [|reflexivity].
    apply List.find_some in F as [Hin Hf]. apply list_elem_of_In in Hin.
    rewrite (H x Hin) in Hf. discriminate.
Qed.

Lemma validateVolumes_nil m :
  validateVolumes m = None
  ↔ Mounts (appConfig m) = None ∧ ∀ a, a ∈ oldAllocs m → AttachedVolumes a = [].
Proof.
  unfold validateVolumes. destruct (Mounts (appConfig m)) as [d|].
  - split; [discriminate | intros [H _]; discriminate].
  - destruct (List.find _ (oldAllocs m)) as [a|] eqn:F.
    + split; [discriminate|]. intros [_ H].
      apply List.find_some in F as [Hin Hf]. apply list_elem_of_In in Hin.
      rewrite (H a Hin) in Hf. discriminate.
    + split; [|reflexivity]. intros _. split; [reflexivity|].
      intros a Ha. apply (proj1 (find_None_iff _ _) F) in Ha.
      destruct (AttachedVolumes a); [reflexivity | discriminate].
Qed.

Lemma validateProcessGroupsOnAllocs_nil m :
  validateProcessGroupsOnAllocs m = None
  ↔ ∀ a, a ∈ oldAllocs m → is_Some (processConfigs m !! TaskName a).
Proof.
  unfold validateProcessGroupsOnAllocs.
  destruct (List.find _ (oldAllocs m)) as [a|] eqn:F.
  - split; [discriminate|]. intros H.
    apply List.find_some in F as [Hin Hf]. apply list_elem_of_In in Hin.
    apply bool_decide_eq_true_1 in Hf. destruct (H a Hin) as [pc Hpc]. congruence.
  - split; [|reflexivity]. intros _ a Ha.
    apply (proj1 (find_None_iff _ _) F) in Ha. apply bool_decide_eq_false_1 in Ha.
    destruct (processConfigs m !! TaskName a) as [pc|]; [eexists; reflexivity | congruence].
Qed.

(** X3: for an application whose configuration is valid for the machines
    platform and whose autoscaling is disabled, [validate] returns [nil]
    exactly when the configuration has no mounts, no legacy instance has a
    volume attached, and every legacy instance has a configured process
    group. *)
Theorem validate_nil_iff P m :
  validateForMachinesPlatform P (appConfig m) = None →
  Enabled (autoscaleConfig m) = false →
  validate P m = None
  ↔ Mounts (appConfig m) = None
    ∧ ∀ a, a ∈ oldAllocs m →
           AttachedVolumes a = [] ∧ is_Some (processConfigs m !! TaskName a).
Proof.
  intros Hcfg Hauto. unfold validate, validateScaling. rewrite Hcfg, Hauto.
  pose proof (validateVolumes_nil m) as Hv.
  pose proof (validateProcessGroupsOnAllocs_nil m) as Hg.
  destruct (validateVolumes m) as [e|].
  - split; [discriminate|]. intros [Hm Ha].
    assert (Some e = None) as Habs; [|discriminate].
    apply Hv. split; [exact Hm|]. intros a Hin. apply Ha, Hin.
  - destruct (proj1 Hv eq_refl) as [Hm Hvol].
    destruct (validateProcessGroupsOnAllocs m) as [e|].
    + split; [discriminate|]. intros [_ Ha].
      assert (Some e = None) as Habs; [|discriminate].
      apply Hg. intros a Hin. apply Ha, Hin.
    + split; [|reflexivity]. intros _. split; [exact Hm|].
      intros a Hin. split; [apply Hvol, Hin | apply (proj1 Hg eq_refl), Hin].
Qed.

(** Instance: the shop passes validation. *)
Lemma validate_nil_iff_witness :
  validate (Shop.platform false) Shop.migrator = None
  ↔ Mounts (appConfig Shop.migrator) = None
    ∧ ∀ a, a ∈ oldAllocs Shop.migrator →
           AttachedVolumes a = []
           ∧ is_Some (processConfigs Shop.migrator !! TaskName a).
Proof.
  apply (validate_nil_iff (Shop.platform false) Shop.migrator); reflexivity.
Defined.

(** ** Counting the legacy instances *)

Lemma resolveProcessGroups_fold allocs (counts : gmap string nat) group :
  (∀ g n, counts !! g = Some n → 0 < n) →
  let result := foldl (λ (counts : gmap string nat) alloc,
                         <[TaskName alloc := S (default 0 (counts !! TaskName alloc))]> counts)
                      counts allocs in
  default 0 (result !! group) = default 0 (counts !! group) + allocsOf group allocs
  ∧ ∀ g n, result !! g = Some n → 0 < n.
Proof.
  revert counts. induction allocs as [|a l IH]; intros counts Hpos; simpl.
  - unfold allocsOf. simpl. split; [lia | exact Hpos].
  - set (counts' := <[TaskName a := S (default 0 (counts !! TaskName a))]> counts).
    assert (∀ g n, counts' !! g = Some n → 0 < n) as Hpos'.
    { intros g n. unfold counts'. rewrite lookup_insert. case_decide as Hd.
      - intros Hi. inversion Hi. lia.
      - apply Hpos. }
    destruct (IH counts' Hpos') as [Hsum Hres]. split; [|exact Hres].
    rewrite Hsum. unfold counts', allocsOf. simpl. rewrite lookup_insert.
    case_decide as Hg.
    + subst group. rewrite bool_decide_eq_true_2 by reflexivity. simpl. lia.
    + rewrite bool_decide_eq_false_2 by exact Hg. reflexivity.
Qed.

Lemma resolveProcessGroups_default m group :
  default 0 (oldVmCounts (resolveProcessGroups m) !! group) = allocsOf group (oldAllocs m).
Proof.
  simpl. destruct (resolveProcessGroups_fold (oldAllocs m) ∅ group) as [Hsum _].
  { intros g n H. rewrite lookup_empty in H. discriminate. }
  rewrite lookup_empty in Hsum. exact Hsum.
Qed.

(** X6: [resolveProcessGroups] counts the legacy instances per process
    group: a group has an entry exactly when an instance belongs to it, the
    entry is the number of its instances, and nothing else of the migrator
    changes. *)
Theorem resolveProcessGroups_counts m group :
  let counts := oldVmCounts (resolveProcessGroups m) in
  default 0 (counts !! group) = allocsOf group (oldAllocs m)
  ∧ (counts !! group = None ↔ allocsOf group (oldAllocs m) = 0)
  ∧ oldAllocs (resolveProcessGroups m) = oldAllocs m
  ∧ newMachinesInput (resolveProcessGroups m) = newMachinesInput m
  ∧ recovery (resolveProcessGroups m) = recovery m.
Proof.
  simpl.
  destruct (resolveProcessGroups_fold (oldAllocs m) ∅ group) as [Hsum Hpos].
  { intros g n H. rewrite lookup_empty in H. discriminate. }
  rewrite lookup_empty in Hsum. simpl in Hsum.
  split; [exact Hsum|]. split; [|auto]. split.
  - intros Hn. rewrite Hn in Hsum. simpl in Hsum. lia.
  - intros Hz. rewrite Hz in Hsum.
    match goal with
    | |- ?x = None => destruct x as [n|] eqn:E; [|reflexivity]
    end.
    apply Hpos in E. simpl in Hsum. lia.
Qed.

(** ** The constructor *)

Lemma resolveMachinesFromAllocs_Built m inputs :
  resolveMachinesFromAllocs m = Built inputs →
  Forall2 (plannedFor m) (oldAllocs m) inputs.
Proof.
  unfold resolveMachinesFromAllocs. intros H.
  destruct (decide (Forall (λ a, is_Some (processConfigs m !! TaskName a)) (oldAllocs m)))
    as [Hall|Hnot].
  - rewrite Forall_forall in Hall.
    destruct (resolveMachinesFromAllocs_loop_known m (oldAllocs m) [] Hall)
      as (inputs' & Hr & Hf).
    rewrite Hr in H. inversion H; subst. exact Hf.
  - apply not_Forall_Exists in Hnot; [|apply _].
    apply Exists_exists in Hnot as (a & Ha & Hn). simpl in Hn.
    assert (processConfigs m !! TaskName a = None) as Hnone.
    { destruct (processConfigs m !! TaskName a) as [pc|]; [|reflexivity].
      exfalso. apply Hn. exists pc. reflexivity. }
    rewrite (resolveMachinesFromAllocs_loop_unknown m _ [] a Ha Hnone) in H. discriminate.
Qed.

Lemma validate_nil_known P m :
  validate P m = None →
  Enabled (autoscaleConfig m) = false →
  ∀ a, a ∈ oldAllocs m → is_Some (processConfigs m !! TaskName a).
Proof.
  unfold validate, validateScaling. intros H Hauto. rewrite Hauto in H.
  destruct (validateForMachinesPlatform P (appConfig m)); [discriminate|].
  destruct (validateVolumes m); [discriminate|].
  destruct (validateProcessGroupsOnAllocs m) eqn:G; [discriminate|].
  apply validateProcessGroupsOnAllocs_nil. exact G.
Qed.

Lemma plan_known_Built m :
  (∀ a, a ∈ oldAllocs m → is_Some (processConfigs m !! TaskName a)) →
  ∃ inputs, resolveMachinesFromAllocs m = Built inputs.
Proof.
  intros Hk. unfold resolveMachinesFromAllocs.
  destruct (resolveMachinesFromAllocs_loop_known m (oldAllocs m) [] Hk) as (inputs & Hr & _).
  eauto.
Qed.

(** Take the constructor apart, one answer at a time. *)
Ltac constructor_cases :=
  unfold NewV2PlatformMigrator, bindC, reading, localC, checkC, retC, ofResult,
    determineAppConfigForMachines, determinePrimaryRegion, determineConfigPath;
  repeat match goal with
         | |- context [match ?x with _ => _ end] =>
             match x with
             | context [match _ with _ => _ end] => fail 1
             | _ => destruct x eqn:?
             end
         end; simpl.

(** X5: a migrator handed out by the constructor has a lease timeout of 13
    seconds renewed every 4, takes the path that avoids downtime, is for an
    application that is not on the machines platform yet, plans one launch
    input per legacy instance in order, counts the instances per process
    group, and has recorded nothing to recover. *)
Theorem constructor_plan P W appName t m t' :
  NewV2PlatformMigrator P W appName t = (Built m, t') →
  leaseTimeout m = 13 ∧ leaseDelayBetween m = 4
  ∧ canAvoidDowntime m = true
  ∧ app_PlatformVersion (appFull m) ≠ "machines"
  ∧ Forall2 (plannedFor m) (oldAllocs m) (newMachinesInput m)
  ∧ (∀ group, default 0 (oldVmCounts m !! group) = allocsOf group (oldAllocs m))
  ∧ recovery m = {| machinesCreated := []; appLocked := false; scaledToZero := false;
                    platformVersion := app_PlatformVersion (appFull m);
                    onlyPromptToConfigSave := false |}.
Proof.
  constructor_cases; intros H; inversion H; subst; clear H;
    match goal with
    | Hp : prepMachinesToCreate ?M = Built ?v |- _ =>
        unfold prepMachinesToCreate in Hp;
        destruct (resolveMachinesFromAllocs M) as [inputs| |] eqn:Hr; try discriminate;
        inversion Hp; subst; clear Hp;
        apply resolveMachinesFromAllocs_Built in Hr
    end;
    (split; [reflexivity|]; split; [reflexivity|]; split; [reflexivity|];
     split; [match goal with
             | Hb : bool_decide _ = false |- _ => apply bool_decide_eq_false_1 in Hb; exact Hb
             end|];
     split; [exact Hr|]; split; [|reflexivity];
     intros group;
     match goal with
     | |- context [set_configPath ?p ?M] =>
         exact (resolveProcessGroups_default (set_configPath p M) group)
     end).
Qed.

(** Instance: the migrator of the shop. *)
Lemma constructor_plan_witness :
  let m := Shop.migrator in
  leaseTimeout m = 13 ∧ leaseDelayBetween m = 4
  ∧ canAvoidDowntime m = true
  ∧ app_PlatformVersion (appFull m) ≠ "machines"
  ∧ Forall2 (plannedFor m) (oldAllocs m) (newMachinesInput m)
  ∧ (∀ group, default 0 (oldVmCounts m !! group) = allocsOf group (oldAllocs m))
  ∧ recovery m = {| machinesCreated := []; appLocked := false; scaledToZero := false;
                    platformVersion := app_PlatformVersion (appFull m);
                    onlyPromptToConfigSave := false |}.
Proof.
  apply (constructor_plan (Shop.platform false) Shop.calm "shop" [] Shop.migrator
           (NewV2PlatformMigrator (Shop.platform false) Shop.calm "shop" []).2).
  vm_compute. reflexivity.
Defined.

Lemma constructor_no_panic P W appName t what :
  (∀ cfg, appAutoscalingConfig P appName = inr cfg → Enabled cfg = false) →
  (NewV2PlatformMigrator P W appName t).1 ≠ Panicked what.
Proof.
  intros Hauto. constructor_cases; try discriminate;
    match goal with
    | Hv : validate P ?M0 = None, Hp : prepMachinesToCreate ?M1 = Panicked _ |- _ =>
        exfalso;
        assert (Enabled (autoscaleConfig M0) = false) as Ha by (apply Hauto; reflexivity);
        pose proof (validate_nil_known P M0 Hv Ha) as Hk;
        unfold prepMachinesToCreate in Hp;
        destruct (plan_known_Built M1 Hk) as [inputs Hb];
        rewrite Hb in Hp; discriminate
    end.
Qed.

(** X4: when autoscaling is disabled the constructor never panics: it
    returns a migrator or an error, because an unknown process group is
    caught by validation before the machines are prepared. *)
Theorem constructor_never_panics P W appName t :
  (∀ cfg, appAutoscalingConfig P appName = inr cfg → Enabled cfg = false) →
  returns (NewV2PlatformMigrator P W appName t).1.
Proof.
  intros Hauto.
  destruct (NewV2PlatformMigrator P W appName t).1 as [m|err|what] eqn:E;
    [exact I | exact I |].
  exfalso. exact (constructor_no_panic P W appName t what Hauto E).
Qed.

(** Instance: the shop with the stray instance and autoscaling disabled. *)
Lemma constructor_never_panics_witness :
  returns (Shop.built false Shop.strayWorld).
Proof.
  apply (constructor_never_panics (Shop.platform false) Shop.strayWorld "shop" []).
  intros cfg H. inversion H. reflexivity.
Defined.

(** ** The size of the machines *)

Lemma substring_all s : String.substring 0 (String.length s) s = s.
Proof. induction s as [|c s IH]; simpl; [reflexivity | rewrite IH; reflexivity]. Qed.

Lemma replaceFirst_absent old new s :
  contains old s = false → replaceFirst old new s = s.
Proof.
  induction s as [|c s IH]; intros H; cbn [contains] in H; cbn [replaceFirst].
  - destruct (String.prefix old EmptyString); [discriminate H | reflexivity].
  - destruct (String.prefix old (String c s)); [discriminate H|].
    rewrite (IH H). reflexivity.
Qed.

Lemma replaceFirst_dedicated suffix :
  replaceFirst "dedicated-cpu" "performance" ("dedicated-cpu" +:+ suffix)
  = "performance" +:+ suffix.
Proof.
  simpl. change (EmptyString +:+ suffix) with suffix.
  destruct suffix as [|c s]; [reflexivity|].
  change (String.prefix EmptyString (String c s)) with true. cbv iota.
  rewrite Nat.sub_0_r, substring_all. reflexivity.
Qed.

(** X7: [determineVmSpecs] asks for the preset performance-... for a VM size
    named dedicated-cpu-..., for the size's own name when the name does not
    mention dedicated-cpu, always takes the memory from the VM size, and
    wraps the error of an unknown preset. *)
Theorem determineVmSpecs_presets P :
  (∀ suffix mem,
     determineVmSpecs P {| vm_Name := "dedicated-cpu" +:+ suffix; vm_MemoryMB := mem |}
     = match setSize P ("performance" +:+ suffix) with
       | inl err => inl (ErrWrap "nomad VM definition incompatible with machines API: " err)
       | inr guest => inr {| CPUKind := CPUKind guest; CPUs := CPUs guest; MemoryMB := mem |}
       end)
  ∧ (∀ name mem,
       contains "dedicated-cpu" name = false →
       determineVmSpecs P {| vm_Name := name; vm_MemoryMB := mem |}
       = match setSize P name with
         | inl err => inl (ErrWrap "nomad VM definition incompatible with machines API: " err)
         | inr guest => inr {| CPUKind := CPUKind guest; CPUs := CPUs guest; MemoryMB := mem |}
         end)
  ∧ (∀ vmSize guest,
       determineVmSpecs P vmSize = inr guest → MemoryMB guest = vm_MemoryMB vmSize).
Proof.
  split; [|split].
  - intros suffix mem. unfold determineVmSpecs. cbn [vm_Name vm_MemoryMB].
    rewrite replaceFirst_dedicated. reflexivity.
  - intros name mem Hc. unfold determineVmSpecs. cbn [vm_Name vm_MemoryMB].
    rewrite (replaceFirst_absent _ _ _ Hc). reflexivity.
  - intros vmSize guest. unfold determineVmSpecs.
    destruct (setSize P _); intros H; inversion H. reflexivity.
Qed.

(** ** Creating the machines, in order *)




(** ** Waiting for the legacy instances to stop *)



(** ** Scaling the legacy instances down *)








(** ** A rollback that succeeds *)

Lemma rollback_deferred_keeps {B} (f : v2PlatformMigrator → B) W st :
  (∀ g m, f (set_recovery (set_appLocked g) m) = f m) →
  f (mig (rollback_deferred W st).2) = f (mig st).
Proof.
  intros Hf. unfold rollback_deferred, unlockApp. unfold_steps.
  destruct (appLocked (recovery (mig st))); simpl.
  - destruct (status W (log st) (UnlockApp _ _)) as [e|]; simpl;
      match goal with
      | |- context [status W ?t (ResumeApp ?n)] =>
          destruct (status W t (ResumeApp n)) as [e'|]
      end; simpl; try destruct (contains _ _); simpl; rewrite ?Hf; reflexivity.
  - destruct (status W (log st) (ResumeApp _)) as [e'|]; simpl;
      try destruct (contains _ _); reflexivity.
Qed.

(** The calls of a log that restore the counts of the legacy instances. *)
Lemma scaleRequests_app t1 t2 :
  scaleRequests (t1 ++ t2) = scaleRequests t1 ++ scaleRequests t2.
Proof. unfold scaleRequests. apply omap_app. Qed.

Lemma scaleRequests_destroyEvents appId (machines : list Machine) :
  scaleRequests (destroyEvent appId <$> machines) = [].
Proof. induction machines as [|x l IH]; simpl; [reflexivity | exact IH]. Qed.

Lemma scaleRequests_cleanup t : forallb isCleanup t = true → scaleRequests t = [].
Proof.
  induction t as [|e t IH]; simpl; [reflexivity|].
  intros [He Ht]%andb_prop. destruct e; try discriminate; simpl; auto.
Qed.

Lemma rollback_body_None W st st' :
  rollback_body W st = (None, st') →
  let m := mig st in
  ∃ rest,
    log st' = log st ++ (destroyEvent (app_Name (appFull m)) <$> machinesCreated (recovery m))
                     ++ rest
    ∧ destroyed rest = []
    ∧ scaleRequests rest
      = (if scaledToZero (recovery m) && (0 <? length (oldAllocs m))
         then [map_to_list (oldVmCounts m)] else [])
    ∧ platformVersion (recovery (mig st')) = "nomad"
    ∧ machinesCreated (recovery (mig st')) = machinesCreated (recovery m)
    ∧ scaledToZero (recovery (mig st')) = scaledToZero (recovery m).
Proof.
  intros H m. subst m. unfold rollback_body in H.
  apply andThen_None in H as (s1 & D & H).
  apply destroyAll_None in D as [Hlog Hmig].
  apply andThen_None in H as (s2 & V & H).
  assert (∃ r2, log s2 = log s1 ++ r2 ∧ destroyed r2 = [] ∧ scaleRequests r2 = []
                ∧ platformVersion (recovery (mig s2)) = "nomad"
                ∧ machinesCreated (recovery (mig s2)) = machinesCreated (recovery (mig st))
                ∧ scaledToZero (recovery (mig s2)) = scaledToZero (recovery (mig st))
                ∧ oldAllocs (mig s2) = oldAllocs (mig st)
                ∧ oldVmCounts (mig s2) = oldVmCounts (mig st)) as (r2 & Hl2 & Hd2 & Hs2 & Hv & Hc & Hz & Ha & Ho).
  { case_bool_decide as Hp.
    - unfold updateAppPlatformVersion in V. unfold_steps.
      destruct (status W (log s1) _) as [e|]; [discriminate|].
      inversion V; subst; clear V. simpl. rewrite Hmig.
      eexists. split; [reflexivity|]. auto 10.
    - inversion V; subst; clear V. exists []. rewrite app_nil_r, Hmig.
      split; [reflexivity|]. split; [reflexivity|]. split; [reflexivity|].
      split; [congruence | auto]. }
  cbv zeta in H. rewrite Hz, Ha in H.
  destruct (scaledToZero (recovery (mig st)) && (0 <? length (oldAllocs (mig st)))).
  - unfold call in H. destruct (status W (log s2) _) as [e|]; [discriminate|].
    inversion H; subst; clear H. simpl.
    exists (r2 ++ [SetNomadVMCount (AppName (appConfig (mig s2))) (map_to_list (oldVmCounts (mig s2)))
                     (if appLocked (recovery (mig s2)) then appLock (mig s2) else "")]).
    rewrite Hl2, Hlog, <- !app_assoc.
    split; [reflexivity|].
    split; [rewrite destroyed_app, Hd2; reflexivity|].
    split; [rewrite scaleRequests_app, Hs2, Ho; reflexivity|]. auto.
  - inversion H; subst; clear H. exists r2. rewrite Hl2, Hlog, <- !app_assoc. auto 10.
Qed.

(** X11: when [rollback] returns [nil], every recorded machine got its
    destroy call, in the recorded order, and no other machine; the recovery
    state says that the application is on nomad again; and the counts of the
    legacy instances were restored, with one request for the counts taken
    before the migration, exactly when the application had been scaled to
    zero and had legacy instances.  The record of created machines is kept as
    it was. *)
Theorem rollback_nil W st st' :
  rollback W st = (None, st') →
  let m := mig st in
  ∃ new,
    log st' = log st ++ new
    ∧ destroyed new = ID <$> machinesCreated (recovery m)
    ∧ scaleRequests new
      = (if scaledToZero (recovery m) && (0 <? length (oldAllocs m))
         then [map_to_list (oldVmCounts m)] else [])
    ∧ ResumeApp (ac_Name (appCompact m)) ∈ new
    ∧ platformVersion (recovery (mig st')) = "nomad"
    ∧ machinesCreated (recovery (mig st')) = machinesCreated (recovery m).
Proof.
  intros H m. unfold rollback, bind, ret in H.
  destruct (rollback_body W st) as [berr s1] eqn:B.
  pose proof (rollback_body_log _ _ _ _ B) as (k & rest0 & _ & _ & _ & _ & Hn1 & _).
  destruct (rollback_deferred_log W s1) as (rest' & Hlog' & Hclean & Hres & _).
  pose proof (rollback_deferred_keeps (λ m, platformVersion (recovery m)) W s1
                (λ _ _, eq_refl)) as Kv.
  pose proof (rollback_deferred_keeps (λ m, machinesCreated (recovery m)) W s1
                (λ _ _, eq_refl)) as Kc.
  destruct (rollback_deferred W s1) as [u s2]. inversion H; subst; clear H.
  apply rollback_body_None in B as (rest & Hlog & Hd & Hs & Hv & Hc & _).
  simpl in *. fold m in Hlog, Hs, Hc.
  exists ((destroyEvent (app_Name (appFull m)) <$> machinesCreated (recovery m))
            ++ rest ++ rest').
  rewrite Hlog', Hlog, <- !app_assoc. split; [reflexivity|].
  split.
  { rewrite !destroyed_app, destroyed_destroyEvents, Hd, (destroyed_cleanup _ Hclean).
    rewrite !app_nil_r. reflexivity. }
  split.
  { rewrite !scaleRequests_app, scaleRequests_destroyEvents, Hs,
      (scaleRequests_cleanup _ Hclean). rewrite app_nil_r. reflexivity. }
  split; [rewrite Hn1 in Hres; set_solver|].
  split; congruence.
Qed.

(** Instance: the shop rolled back after its three machines were created and
    the application was scaled to zero. *)
Lemma rollback_nil_witness :
  let st := {| log := [];
               mig := set_recovery (λ r, set_scaledToZero true
                                           (set_machinesCreated [Shop.m1; Shop.m2; Shop.m3] r))
                        Shop.migrator |} in
  let m := mig st in
  ∃ new,
    log (rollback Shop.calm st).2 = log st ++ new
    ∧ destroyed new = ID <$> machinesCreated (recovery m)
    ∧ scaleRequests new
      = (if scaledToZero (recovery m) && (0 <? length (oldAllocs m))
         then [map_to_list (oldVmCounts m)] else [])
    ∧ ResumeApp (ac_Name (appCompact m)) ∈ new
    ∧ platformVersion (recovery (mig (rollback Shop.calm st).2)) = "nomad"
    ∧ machinesCreated (recovery (mig (rollback Shop.calm st).2))
      = machinesCreated (recovery m).
Proof.
  intros st.
  apply (rollback_nil Shop.calm st (rollback Shop.calm st).2).
  vm_compute. reflexivity.
Defined.

(** ** What a run of Migrate never does *)

Ltac steps Hr Ht Hl Hm :=
  repeat first
    [ exact Hr | exact Ht | exact Hl | exact Hm
    | eapply stays_checkAbort
    | eapply stays_lockAppForMigration
    | eapply stays_createRelease
    | eapply stays_createMachines
    | eapply stays_scaleNomadToZero
    | eapply stays_updateAppPlatformVersion
    | eapply stays_unlockApp
    | eapply stays_deployApp
    | eapply stays_updateOk
    | eapply stays_ret
    | eapply stays_andThen
    | eapply stays_bind
    | (intros ?st; eapply stays_call) ].

Lemma Migrate_steps_never_undo W st : grows notUndo st (Migrate_steps W st).2.
Proof.
  revert st.
  pose proof (grows_refl notUndo) as Hr. pose proof (grows_trans notUndo) as Ht.
  pose proof (λ st e, grows_log notUndo st e) as Hl.
  pose proof (λ st g, grows_mig notUndo st g) as Hm.
  assert (stays (grows notUndo) (scaleNomadToZero W)) as Hscale.
  { steps Hr Ht Hl Hm; intros; done. }
  unfold Migrate_steps, Migrate_beforeLeases, Migrate_untilCreated, Migrate_afterLock,
    Migrate_withLeases, Migrate_cutover, Migrate_afterDeploy, Migrate_saveConfig,
    acquireLeases, releaseLeases.
  steps Hr Ht Hl Hm; intros; try done.
  - intros st. destruct (canAvoidDowntime (mig st)); [apply Hr | apply Hscale].
  - intros st. apply (Hl st). reflexivity.
  - assert (stays (grows notUndo) (scaleNomadToZero W ;;; checkAbort W)) as Hboth.
    { steps Hr Ht Hl Hm; intros; done. }
    intros st. destruct (canAvoidDowntime (mig st)); [apply Hboth | apply Hr].
  - steps Hr Ht Hl Hm; intros; done.
Qed.

(** X12: the steps of [Migrate] never take anything back: whatever their
    result, they log no destroy call, no resume call and no reset of the
    platform version to nomad.  Hence a run of [Migrate] that returns [nil]
    has destroyed no machine, and every destroy call of a failed run comes
    from [rollback]. *)
Theorem Migrate_never_undoes W st :
  grows notUndo st (Migrate_steps W st).2
  ∧ ∀ st', Migrate W st = (None, st') →
           ∃ new, log st' = log st ++ new
                  ∧ forallb notUndo new = true
                  ∧ destroyed new = [].
Proof.
  split; [apply Migrate_steps_never_undo|].
  intros st' H. unfold Migrate, bind, update in H. fold (changed entry st) in H.
  pose proof (Migrate_steps_never_undo W (changed entry st)) as (new & Hlog & Hall).
  destruct (Migrate_steps W (changed entry st)) as [err s1].
  apply Migrate_deferred_None in H as [-> ->]. simpl in Hlog.
  exists new. split; [exact Hlog|]. split; [exact Hall|].
  clear Hlog. induction new as [|e new IH]; [reflexivity|].
  simpl in Hall. apply andb_prop in Hall as [He Hnew].
  destruct e; simpl in *; try discriminate; auto.
Qed.

(** X13: what the constructor decides besides the plan.  The migrator is for
    the application and the image that the API reports; its configuration
    carries the application name when one is given; the configuration file
    is resolved from the path of the flag --config if given and from the
    working directory otherwise; and the primary region is the value of
    PRIMARY_REGION in the environment of the configuration when there is
    one, and the answer of the region prompt otherwise. *)
Theorem constructor_config P W appName t m t' :
  NewV2PlatformMigrator P W appName t = (Built m, t') →
  getAppCompact P appName = inr (appCompact m)
  ∧ getApp P appName = inr (appFull m)
  ∧ (appName ≠ "" → AppName (appConfig m) = appName)
  ∧ (∃ info, getImageInfo P appName = inr info
             ∧ img m = Registry info +:+ "/" +:+ Repository info +:+ ":" +:+ Tag info)
  ∧ resolveConfigFileFromPath P (default (workingDirectory P) (flagConfig P))
    = inr (configPath m)
  ∧ (∀ val, Env (appConfig m) !! "PRIMARY_REGION" = Some val →
            PrimaryRegion (appConfig m) = val)
  ∧ (Env (appConfig m) !! "PRIMARY_REGION" = None →
     promptRegion P (negb (app_PaidPlan (appFull m)))
     = inr (Some (PrimaryRegion (appConfig m)))).
Proof.
  constructor_cases; intros H; inversion H; subst; clear H; simpl.
  all: unfold prepMachinesToCreate in *.
  all: repeat match goal with
              | Hp : match ?x with _ => _ end = Built _ |- _ =>
                  destruct x eqn:?; try discriminate; inversion Hp; subst; clear Hp
              end.
  all: simpl.
  all: repeat match goal with
              | Hw : wrapErr _ ?r = inr _ |- _ =>
                  destruct r eqn:?; simpl in Hw; [discriminate|]; inversion Hw; subst; clear Hw
              end.
  all: match goal with
       | Hl : Env _ !! "PRIMARY_REGION" = _ |- _ => simpl in Hl
       end.
  all: split; [reflexivity|]; split; [reflexivity|].
  all: split;
    [intros Hn; try reflexivity;
     exfalso;
     match goal with
     | Hb : bool_decide (_ ≠ "") = false |- _ =>
         apply bool_decide_eq_false in Hb; exact (Hb Hn)
     end|].
  all: split; [eexists; split; reflexivity|].
  all: rewrite ?Heqo4; simpl.
  all: split; [assumption|].
  all: split; [intros val Hv; congruence | intros Hv; try congruence].
  all: match goal with
       | Hq : promptRegion _ _ = _ |- _ => simpl in Hq; exact Hq
       end.
Qed.

(** The shop is built from its own record, image and configuration file,
    in the region its configuration names. *)
Lemma constructor_config_witness :
  ∃ m t', NewV2PlatformMigrator (Shop.platform false) Shop.calm "shop" [] = (Built m, t')
          ∧ AppName (appConfig m) = "shop"
          ∧ resolveConfigFileFromPath (Shop.platform false)
              (default (workingDirectory (Shop.platform false)) (flagConfig (Shop.platform false)))
            = inr (configPath m).
Proof.
  eexists _, _. split; [vm_compute; reflexivity|].
  split.
  - eapply (constructor_config (Shop.platform false) Shop.calm "shop" []);
      [vm_compute; reflexivity | discriminate].
  - eapply (constructor_config (Shop.platform false) Shop.calm "shop" []).
    vm_compute; reflexivity.
Defined.

(** ** A migration that succeeds *)













(** ** Running the command *)



(** ** The attempts of WaitForStartOrStop *)

Lemma waitLoop_attempts W fuel machine state t r t' :
  waitLoop W fuel machine state t = (r, t') →
  match r with
  | None => t' = t ++ concat (replicate fuel (retriedWait machine state))
  | Some result =>
      ∃ n, n < fuel
           ∧ t' = t ++ concat (replicate n (retriedWait machine state))
                    ++ [Wait (ID machine) state]
           ∧ let before := t ++ concat (replicate n (retriedWait machine state)) in
             match result with
             | None => status W before (Wait (ID machine) state) = None
             | Some err =>
                 ∃ e', status W before (Wait (ID machine) state) = Some e'
                       ∧ (err = e' ∨ ∃ prefix, err = ErrWrap prefix e')
             end
  end.
Proof.
  revert t. induction fuel as [|fuel IH]; intros t H; simpl in H.
  - inversion H; subst. simpl. rewrite app_nil_r. reflexivity.
  - destruct (status W t (Wait (ID machine) state)) as [err|] eqn:S.
    + assert (∀ err', (err' = err ∨ ∃ prefix, err' = ErrWrap prefix err) →
                      ∃ n, n < Datatypes.S fuel
                           ∧ t ++ [Wait (ID machine) state]
                             = t ++ concat (replicate n (retriedWait machine state))
                                 ++ [Wait (ID machine) state]
                           ∧ ∃ e', status W (t ++ concat (replicate n
                                                (retriedWait machine state)))
                                     (Wait (ID machine) state) = Some e'
                                   ∧ (err' = e' ∨ ∃ prefix, err' = ErrWrap prefix e'))
        as Hnow.
      { intros err' He. exists 0. simpl. rewrite app_nil_r.
        split; [lia|]. split; [reflexivity|]. exists err. split; [exact S | exact He]. }
      destruct (waitCtxErr W (t ++ [Wait (ID machine) state])).
      * destruct (bool_decide (asFlapsError err = Some 400)).
        -- inversion H; subst. apply Hnow. right. eauto.
        -- apply IH in H. destruct r as [result|].
           ++ destruct H as (n & Hn & Ht & Hres). exists (Datatypes.S n).
              split; [lia|]. simpl. rewrite <- !app_assoc in *. simpl in *.
              split; [exact Ht | exact Hres].
           ++ simpl. rewrite H, <- !app_assoc. reflexivity.
      * inversion H; subst. apply Hnow. left. reflexivity.
      * inversion H; subst. apply Hnow. right. eauto.
    + inversion H; subst. exists 0. simpl. rewrite app_nil_r.
      split; [lia|]. split; [reflexivity | exact S].
Qed.

(** X16: when the loop of [WaitForStartOrStop] returns, it has made one wait
    call more than it has slept: every attempt but the last was followed by
    a sleep, and nothing else was called.  It returns [nil] exactly when the
    last wait call succeeded, and otherwise the error of the last wait call,
    as it is or wrapped: the errors of the earlier attempts are never
    reported. *)
Theorem waitLoop_result W fuel machine state t result t' :
  waitLoop W fuel machine state t = (Some result, t') →
  ∃ n,
    let before := t ++ concat (replicate n (retriedWait machine state)) in
    n < fuel
    ∧ t' = before ++ [Wait (ID machine) state]
    ∧ (result = None ↔ status W before (Wait (ID machine) state) = None)
    ∧ (∀ err, result = Some err →
              ∃ e', status W before (Wait (ID machine) state) = Some e'
                    ∧ (err = e' ∨ ∃ prefix, err = ErrWrap prefix e')).
Proof.
  intros H. apply waitLoop_attempts in H as (n & Hn & Ht & Hres).
  exists n. simpl in *. split; [exact Hn|].
  split; [rewrite Ht, <- app_assoc; reflexivity|].
  destruct result as [err|].
  - destruct Hres as (e' & He' & Herr). split.
    + split; [discriminate | congruence].
    + intros err0 H0. inversion H0; subst. eauto.
  - split; [split; auto | discriminate].
Qed.

(** Instance: the first wait on m1 is answered 500, the second succeeds. *)
Lemma waitLoop_result_witness :
  ∃ n,
    let before := [] ++ concat (replicate n (retriedWait Shop.m1 "started")) in
    n < 2
    ∧ (waitLoop Shop.flakyWait 2 Shop.m1 "started" []).2
      = before ++ [Wait (ID Shop.m1) "started"]
    ∧ (@None error = None ↔ status Shop.flakyWait before (Wait (ID Shop.m1) "started") = None)
    ∧ (∀ err, @None error = Some err →
              ∃ e', status Shop.flakyWait before (Wait (ID Shop.m1) "started") = Some e'
                    ∧ (err = e' ∨ ∃ prefix, err = ErrWrap prefix e')).
Proof.
  apply (waitLoop_result Shop.flakyWait 2 Shop.m1 "started" [] None
           (waitLoop Shop.flakyWait 2 Shop.m1 "started" []).2).
  vm_compute. reflexivity.
Defined.
